(** * Healthcare IoT microprocessor: configuration and DVFS analysis

    A shallow embedding of the two Python sources of the project:

    - [Phase3_Performance_Analysis/analyze_results.py]: the sample-data
      generator [generate_sample_dvfs_data] and the data computed by the
      plotting functions [plot_energy_efficiency] and
      [plot_dvfs_efficiency_curve];
    - [Phase2_Implementation/gem5_configs/healthcare_iot_config.py]: the port
      wiring of [HealthcareIoTSystem.__init__] and the DVFS table of
      [configure_power_management].

    Numbers.  Python's [float] values are idealised as exact rationals [Q]:
    every arithmetic operator is the exact one, comparisons are the exact
    ones ([==] is [Qeq_bool]), and neither rounding error, overflow nor NaN is
    modelled.  Python's [int] values that only ever flow into float arithmetic
    (the frequency in MHz) are rationals too; the instruction count stays an
    integer.  Exceptions are explicit: a computation returns [Ok v] or
    [Raise e].  The global numpy random generator is an explicit state.

    Where the idealisation departs from the doubles of the code:
    - [round(x, n)] is applied to the exact value, so that at a tie (an
      exact value half-way between two neighbours) the model and Python may
      store different neighbours, both within half a unit of the last place;
    - [np.mean] is the exact, order-independent mean, whereas numpy adds
      doubles in list order: two orders of the same values may differ in the
      last bit;
    - [voltage ** 2] never raises, whereas Python raises [OverflowError]
      beyond about 1.3e154;
    - a value computed in doubles may exceed the exact one in the last bit
      ([base_ipc] at 800 MHz for the stress test is 0.8925000000000002).
    The statements below are about orders, tolerances and ranges with a
    margin, or carry the hypotheses under which they hold of the doubles
    too. *)

From Stdlib Require Import QArith Qround ZArith List Ascii String Bool.
From Stdlib Require Import Lia Lqa.
From Stdlib Require Import Sorting.Sorted Sorting.Permutation.
Import ListNotations.

Local Open Scope Q_scope.

(** ** Exceptions *)

Inductive exn : Type :=
| ZeroDivisionError
| ValueError.

Inductive result (A : Type) : Type :=
| Ok (a : A)
| Raise (e : exn).

Arguments Ok {A} a.
Arguments Raise {A} e.

Definition bind {A B : Type} (m : result A) (k : A -> result B) : result B :=
  match m with
  | Ok a => k a
  | Raise e => Raise e
  end.

Notation "x <- m ;; k" := (bind m (fun x => k))
  (at level 61, m at next level, right associativity).

(** Python's true division [a / b]: raises on a zero divisor. *)
Definition py_div (a b : Q) : result Q :=
  if Qeq_bool b 0 then Raise ZeroDivisionError else Ok (a / b).

(** Python's [round(x, n)] on the idealised numbers: the multiple of
    [10^-n] nearest to [x], a tie going to the even multiple. *)
Definition round_half_even (q : Q) : Z :=
  let f := Qfloor q in
  let r := q - inject_Z f in
  match Qcompare r (1 # 2) with
  | Lt => f
  | Gt => (f + 1)%Z
  | Eq => if Z.even f then f else (f + 1)%Z
  end.

Definition py_round (x : Q) (n : nat) : Q :=
  let scale := inject_Z (10 ^ Z.of_nat n) in
  inject_Z (round_half_even (x * scale)) / scale.

(** ** The numpy global random generator

    [np.random.uniform(low, high)] reads and advances a process-wide
    generator.  The state is the sequence of unit variates still to come
    ([draws], each in [0, 1)) and the position reached in it. *)

Record RandomState : Type := mkRandomState {
  draws : nat -> Q;
  pos : nat
}.

Definition random_sample (st : RandomState) : Q * RandomState :=
  (draws st (pos st), mkRandomState (draws st) (S (pos st))).

Definition uniform (low high : Q) (st : RandomState) : Q * RandomState :=
  let (u, st') := random_sample st in
  (low + (high - low) * u, st').

(** ** Records of [analyze_results.py] *)

Record Metrics : Type := mkMetrics {
  ipc : Q;
  cpi : Q;
  avg_power : Q;
  peak_power : Q;
  total_energy : Q;
  energy_per_inst : Q;
  sim_insts : Z;
  sim_seconds : Q;
  icache_hit_rate : Q;
  dcache_hit_rate : Q
}.

Record Entry : Type := mkEntry {
  voltage : Q;
  frequency : Q;
  workload : string;
  metrics : Metrics
}.

(** ** [generate_sample_dvfs_data] *)

Module Sample.

Definition dvfs_points : list (Q * Q) :=
  [ (6 # 10, 50); (7 # 10, 100); (8 # 10, 200);
    (9 # 10, 400); (1, 600); (12 # 10, 800) ].

Definition workloads : list string :=
  [ "healthcare_monitor_test"; "intensive_ecg_processing";
    "burst_transmission"; "mixed_workload";
    "idle_scenario"; "stress_test" ]%string.

(** Lines 67-75: the IPC of one (point, workload) run. *)
Definition base_ipc (frequency : Q) (workload : string) : Q :=
  let base_ipc := (65 # 100) + (frequency / 800) * (20 # 100) in
  if String.eqb workload "intensive_ecg_processing" then base_ipc * (95 # 100)
  else if String.eqb workload "idle_scenario" then base_ipc * (30 # 100)
  else if String.eqb workload "stress_test" then base_ipc * (105 # 100)
  else base_ipc.

(** Lines 77-80: the power model. *)
Definition dynamic_power (voltage frequency base_ipc : Q) : Q :=
  (voltage ^ 2) * frequency * base_ipc.

Definition static_power (voltage : Q) : Q :=
  voltage * 5.

Definition power (voltage frequency base_ipc : Q) : result (Q * Q * Q) :=
  let dynamic_power := dynamic_power voltage frequency base_ipc in
  let static_power := static_power voltage in
  let avg_power := dynamic_power + static_power in
  Ok (dynamic_power, static_power, avg_power).

(** Lines 82-88: the instruction count of a workload. *)
Definition insts_of (workload : string) : Z :=
  if String.eqb workload "stress_test" then 500000%Z
  else if String.eqb workload "idle_scenario" then 50000%Z
  else 200000%Z.

(** Line 90. *)
Definition seconds_of (sim_insts : Z) (frequency base_ipc : Q) : result Q :=
  py_div (inject_Z sim_insts) (frequency * 1000000 * base_ipc).

(** Lines 91-92: energy of a run and energy per instruction. *)
Definition energy (avg_power sim_seconds : Q) (sim_insts : Z)
  : result (Q * Q) :=
  let total_energy := avg_power * sim_seconds * 1000 in
  energy_per_inst <- py_div total_energy (inject_Z sim_insts) ;;
  Ok (total_energy, energy_per_inst).

(** The local variables of one iteration, before they are rounded into the
    result dictionary. *)
Record Locals : Type := mkLocals {
  l_base_ipc : Q;
  l_dynamic_power : Q;
  l_static_power : Q;
  l_avg_power : Q;
  l_sim_insts : Z;
  l_sim_seconds : Q;
  l_total_energy : Q;
  l_energy_per_inst : Q
}.

(** Lines 67-92 of the loop body. *)
Definition locals (voltage frequency : Q) (workload : string)
  : result Locals :=
  let base_ipc := base_ipc frequency workload in
  p <- power voltage frequency base_ipc ;;
  let '(dynamic_power, static_power, avg_power) := p in
  let sim_insts := insts_of workload in
  sim_seconds <- seconds_of sim_insts frequency base_ipc ;;
  e <- energy avg_power sim_seconds sim_insts ;;
  let '(total_energy, energy_per_inst) := e in
  Ok (mkLocals base_ipc dynamic_power static_power avg_power
        sim_insts sim_seconds total_energy energy_per_inst).

(** Lines 98-114: the dictionary appended to [results]. *)
Definition entry_of (voltage frequency : Q) (workload : string)
    (l : Locals) (icache_hit dcache_hit : Q) : result Entry :=
  inv_ipc <- py_div 1 (l_base_ipc l) ;;
  Ok (mkEntry voltage frequency workload
        (mkMetrics
           (py_round (l_base_ipc l) 3)
           (py_round inv_ipc 3)
           (py_round (l_avg_power l) 1)
           (py_round (l_avg_power l * (13 # 10)) 1)
           (py_round (l_total_energy l) 2)
           (py_round (l_energy_per_inst l) 4)
           (l_sim_insts l)
           (py_round (l_sim_seconds l) 6)
           (py_round icache_hit 4)
           (py_round dcache_hit 4))).

(** One iteration of the inner loop (lines 66-114). *)
Definition body (voltage frequency : Q) (workload : string)
    (st : RandomState) : result (Entry * RandomState) :=
  l <- locals voltage frequency workload ;;
  let (u1, st1) := uniform (- (1 # 100)) (1 # 100) st in
  let icache_hit := (945 # 1000) + u1 in
  let (u2, st2) := uniform (- (1 # 100)) (1 # 100) st1 in
  let dcache_hit := (955 # 1000) + u2 in
  e <- entry_of voltage frequency workload l icache_hit dcache_hit ;;
  Ok (e, st2).

(** The inner loop [for workload in workloads]. *)
Fixpoint inner (voltage frequency : Q) (ws : list string)
    (results : list Entry) (st : RandomState)
  : result (list Entry * RandomState) :=
  match ws with
  | [] => Ok (results, st)
  | w :: ws' =>
      r <- body voltage frequency w st ;;
      let (e, st') := r in
      inner voltage frequency ws' (results ++ [e]) st'
  end.

(** The outer loop [for voltage, frequency in dvfs_points]. *)
Fixpoint outer (points : list (Q * Q)) (ws : list string)
    (results : list Entry) (st : RandomState)
  : result (list Entry * RandomState) :=
  match points with
  | [] => Ok (results, st)
  | (voltage, frequency) :: points' =>
      r <- inner voltage frequency ws results st ;;
      let (results', st') := r in
      outer points' ws results' st'
  end.

Definition generate_sample_dvfs_data (st : RandomState)
  : result (list Entry * RandomState) :=
  outer dvfs_points workloads [] st.

End Sample.

(** ** Python and numpy built-ins used by the analysis *)

Definition Qlt_bool (x y : Q) : bool := negb (Qle_bool y x).

(** An operating point is the tuple [(voltage, frequency)]. *)
Definition point : Type := (Q * Q)%type.

(** [==] and [<] on tuples of two numbers. *)
Definition point_eqb (p q : point) : bool :=
  Qeq_bool (fst p) (fst q) && Qeq_bool (snd p) (snd q).

Definition lex_ltb (p q : point) : bool :=
  Qlt_bool (fst p) (fst q)
  || (Qeq_bool (fst p) (fst q) && Qlt_bool (snd p) (snd q)).

(** [set(xs)]: one representative of every class of equal elements.  The
    iteration order of a Python set is unspecified; every use below sorts
    the enumeration. *)
Fixpoint py_set (xs : list point) : list point :=
  match xs with
  | [] => []
  | p :: xs' => if existsb (point_eqb p) xs' then py_set xs' else p :: py_set xs'
  end.

(** [sorted(xs)]: a stable sort that compares with [<] only. *)
Fixpoint insert (p : point) (l : list point) : list point :=
  match l with
  | [] => [p]
  | q :: l' => if lex_ltb q p then q :: insert p l' else p :: l
  end.

Definition sorted (xs : list point) : list point :=
  fold_right insert [] xs.

(** [max(xs)] raises [ValueError] on an empty sequence. *)
Definition py_max (xs : list Q) : result Q :=
  match xs with
  | [] => Raise ValueError
  | x :: xs' => Ok (fold_left (fun m y => if Qlt_bool m y then y else m) xs' x)
  end.

(** [np.mean(xs)]; the callers guard against the empty list. *)
Definition np_sum (xs : list Q) : Q := fold_right Qplus 0 xs.

Definition np_mean (xs : list Q) : Q :=
  np_sum xs / inject_Z (Z.of_nat (List.length xs)).

(** [np.argmin(xs)] and [np.argmax(xs)]: the index of the first occurrence
    of the extremum; [ValueError] on an empty sequence. *)
Fixpoint argmin_from (best_i : nat) (best : Q) (i : nat) (xs : list Q) : nat :=
  match xs with
  | [] => best_i
  | x :: xs' =>
      if Qlt_bool x best then argmin_from i x (S i) xs'
      else argmin_from best_i best (S i) xs'
  end.

Definition np_argmin (xs : list Q) : result nat :=
  match xs with
  | [] => Raise ValueError
  | x :: xs' => Ok (argmin_from 0 x 1 xs')
  end.

Fixpoint argmax_from (best_i : nat) (best : Q) (i : nat) (xs : list Q) : nat :=
  match xs with
  | [] => best_i
  | x :: xs' =>
      if Qlt_bool best x then argmax_from i x (S i) xs'
      else argmax_from best_i best (S i) xs'
  end.

Definition np_argmax (xs : list Q) : result nat :=
  match xs with
  | [] => Raise ValueError
  | x :: xs' => Ok (argmax_from 0 x 1 xs')
  end.

(** ** The per-point tables of the plotting functions *)

Module Analysis.

(** The three lists [frequencies], [voltages] and the plotted value
    ([avg_epi] or [efficiencies]) are appended to in lock step; a row holds
    the three values appended by one iteration. *)
Record Row : Type := mkRow {
  row_voltage : Q;
  row_frequency : Q;
  row_value : Q
}.

Definition row_point (r : Row) : point := (row_voltage r, row_frequency r).

Definition voltages (rows : list Row) : list Q := map row_voltage rows.
Definition frequencies (rows : list Row) : list Q := map row_frequency rows.
Definition values (rows : list Row) : list Q := map row_value rows.

Definition points_of (results : list Entry) : list point :=
  sorted (py_set (map (fun r => (voltage r, frequency r)) results)).

Definition at_point (voltage0 frequency0 : Q) (r : Entry) : bool :=
  Qeq_bool (voltage r) voltage0 && Qeq_bool (frequency r) frequency0.

Definition epi_of (r : Entry) : Q := energy_per_inst (metrics r).

Definition not_idle (r : Entry) : bool :=
  negb (String.eqb (workload r) "idle_scenario").

(** [plot_energy_efficiency], lines 165-177. *)
Definition point_results (results : list Entry) (voltage frequency : Q)
  : list Entry :=
  filter (at_point voltage frequency) results.

Definition active_results (results : list Entry) (voltage frequency : Q)
  : list Entry :=
  filter not_idle (point_results results voltage frequency).

Fixpoint energy_rows (results : list Entry) (dvfs_points : list point)
  : list Row :=
  match dvfs_points with
  | [] => []
  | (voltage, frequency) :: rest =>
      let active := active_results results voltage frequency in
      match active with
      | [] => energy_rows results rest
      | _ :: _ =>
          let epi :=
            np_mean (map epi_of active) in
          mkRow voltage frequency epi :: energy_rows results rest
      end
  end.

(** The data of [plot_energy_efficiency]: the table and the highlighted
    index.  [max(voltages)] (line 180) raises on an empty table before
    [np.argmin] is reached. *)
Definition plot_energy_efficiency (results : list Entry)
  : result (list Row * nat) :=
  let dvfs_points := points_of results in
  let rows := energy_rows results dvfs_points in
  _ <- py_max (voltages rows) ;;
  optimal_idx <- np_argmin (values rows) ;;
  Ok (rows, optimal_idx).

(** [plot_dvfs_efficiency_curve], lines 385-397: [next(..., None)] takes the
    first matching record. *)
Definition baseline (voltage0 frequency0 : Q) (r : Entry) : bool :=
  at_point voltage0 frequency0 r
  && String.eqb (workload r) "healthcare_monitor_test".

Fixpoint efficiency_rows (results : list Entry) (dvfs_points : list point)
  : result (list Row) :=
  match dvfs_points with
  | [] => Ok []
  | (voltage, frequency) :: rest =>
      match find (baseline voltage frequency) results with
      | Some point_result =>
          q <- py_div (ipc (metrics point_result))
                      (avg_power (metrics point_result)) ;;
          let efficiency := q * 1000 in
          rows <- efficiency_rows results rest ;;
          Ok (mkRow voltage frequency efficiency :: rows)
      | None => efficiency_rows results rest
      end
  end.

Definition plot_dvfs_efficiency_curve (results : list Entry)
  : result (list Row * nat) :=
  let dvfs_points := points_of results in
  rows <- efficiency_rows results dvfs_points ;;
  optimal_idx <- np_argmax (values rows) ;;
  Ok (rows, optimal_idx).

(** [generate_results_table], line 432. *)
Definition selected_points : list point :=
  [ (6 # 10, 50); (8 # 10, 200); (1, 600); (12 # 10, 800) ].

End Analysis.

(** ** [healthcare_iot_config.py]: the DVFS table *)

Module Config.

Local Open Scope string_scope.

(** [configure_power_management], lines 189-196: the table is a list of
    pairs of quantity strings. *)
Definition dvfs_points : list (string * string) :=
  [ ("0.6V", "50MHz");
    ("0.7V", "100MHz");
    ("0.8V", "200MHz");
    ("0.9V", "400MHz");
    ("1.0V", "600MHz");
    ("1.2V", "800MHz") ].

(** The value of a quantity string: a decimal number followed by its unit
    (volts for ["V"], megahertz for ["MHz"]), the reading gem5 gives to
    these parameters. *)
Definition digit_of (c : Ascii.ascii) : option Z :=
  let n := Z.of_nat (Ascii.nat_of_ascii c) in
  if ((48 <=? n) && (n <=? 57))%Z then Some (n - 48)%Z else None.

Fixpoint parse_fraction (s : string) (num : Z) (den : positive)
  : Q * string :=
  match s with
  | EmptyString => (num # den, s)
  | String c s' =>
      match digit_of c with
      | Some d => parse_fraction s' (10 * num + d)%Z (10 * den)%positive
      | None => (num # den, s)
      end
  end.

Fixpoint parse_number (s : string) (num : Z) : Q * string :=
  match s with
  | EmptyString => (inject_Z num, s)
  | String c s' =>
      match digit_of c with
      | Some d => parse_number s' (10 * num + d)%Z
      | None =>
          if Ascii.eqb c "."%char then parse_fraction s' num 1
          else (inject_Z num, s)
      end
  end.

Definition parse_quantity (unit s : string) : option Q :=
  match s with
  | EmptyString => None
  | String c _ =>
      match digit_of c with
      | None => None
      | Some _ =>
          let (q, rest) := parse_number s 0 in
          if String.eqb rest unit then Some q else None
      end
  end.

Definition parse_point (p : string * string) : option point :=
  match parse_quantity "V" (fst p), parse_quantity "MHz" (snd p) with
  | Some v, Some f => Some (v, f)
  | _, _ => None
  end.

Fixpoint parse_table (t : list (string * string)) : option (list point) :=
  match t with
  | [] => Some []
  | p :: t' =>
      match parse_point p, parse_table t' with
      | Some q, Some l => Some (q :: l)
      | _, _ => None
      end
  end.

End Config.

(** ** [healthcare_iot_config.py]: the port wiring *)

Module Topology.

Local Open Scope string_scope.

(** The objects that own ports in [HealthcareIoTSystem]. *)
Inductive Component : Type :=
| System
| CPU
| ICache
| DCache
| L2Cache
| MemBus
| MemCtrl.

Definition Component_eqb (a b : Component) : bool :=
  match a, b with
  | System, System | CPU, CPU | ICache, ICache | DCache, DCache
  | L2Cache, L2Cache | MemBus, MemBus | MemCtrl, MemCtrl => true
  | _, _ => false
  end.

Record PortRef : Type := mkPort {
  owner : Component;
  port_name : string
}.

(** The port assignments of [__init__], lines 38-52, as [(lhs, rhs)] in
    program order.  The caches are attached to the CPU as attributes
    (lines 33-34); no CPU port is assigned anywhere. *)
Definition wiring : list (PortRef * PortRef) :=
  [ (mkPort ICache "mem_side", mkPort L2Cache "cpu_side");
    (mkPort DCache "mem_side", mkPort L2Cache "cpu_side");
    (mkPort L2Cache "mem_side", mkPort MemBus "cpu_side_ports");
    (mkPort MemCtrl "port", mkPort MemBus "mem_side_ports");
    (mkPort System "system_port", mkPort MemBus "cpu_side_ports") ].

(** The components the topology is made of. *)
Definition components : list Component :=
  [ CPU; ICache; DCache; L2Cache; MemBus; MemCtrl ].

(** The side a port faces.  Requesting ports face memory; responding ports
    face the CPU (gem5 declares [MemCtrl.port] as a responding port and
    [System.system_port] as a requesting one). *)
Inductive Role : Type :=
| cpu_side
| mem_side.

Definition role_of (p : PortRef) : option Role :=
  let n := port_name p in
  if String.eqb n "mem_side" || String.eqb n "mem_side_ports"
     || String.eqb n "system_port" then Some mem_side
  else if String.eqb n "cpu_side" || String.eqb n "cpu_side_ports"
          || String.eqb n "port" then Some cpu_side
  else None.

(** A binding oriented from the memory-facing port to the CPU-facing one. *)
Definition orient (e : PortRef * PortRef) : option (Component * Component) :=
  match role_of (fst e), role_of (snd e) with
  | Some mem_side, Some cpu_side => Some (owner (fst e), owner (snd e))
  | Some cpu_side, Some mem_side => Some (owner (snd e), owner (fst e))
  | _, _ => None
  end.

Fixpoint oriented (w : list (PortRef * PortRef))
  : list (Component * Component) :=
  match w with
  | [] => []
  | e :: w' =>
      match orient e with
      | Some d => d :: oriented w'
      | None => oriented w'
      end
  end.

Definition edges : list (Component * Component) := oriented wiring.

Definition successors (c : Component) : list Component :=
  map snd (filter (fun e => Component_eqb (fst e) c) edges).

(** Reachability along the oriented edges. *)
Inductive reaches : Component -> Component -> Prop :=
| reaches_here : forall c, reaches c c
| reaches_step : forall c d e,
    In (c, d) edges -> reaches d e -> reaches c e.

(** A path of at least one edge. *)
Inductive path : Component -> Component -> Prop :=
| path_edge : forall c d, In (c, d) edges -> path c d
| path_cons : forall c d e, In (c, d) edges -> path d e -> path c e.

(** Depth of a component in the memory hierarchy. *)
Definition depth (c : Component) : nat :=
  match c with
  | System | CPU | ICache | DCache => 0
  | L2Cache => 1
  | MemBus => 2
  | MemCtrl => 3
  end.

End Topology.

(** ** The part of the generator that does not read the random generator

    [Det] holds every field of an entry except the two cache hit rates;
    [det_body], [det_inner] and [det_outer] recompute these fields without
    the generator state. *)

Module Det.

Record Det : Type := mkDet {
  d_voltage : Q;
  d_frequency : Q;
  d_workload : string;
  d_ipc : Q;
  d_cpi : Q;
  d_avg_power : Q;
  d_peak_power : Q;
  d_total_energy : Q;
  d_energy_per_inst : Q;
  d_sim_insts : Z;
  d_sim_seconds : Q
}.

Definition det (e : Entry) : Det :=
  let m := metrics e in
  mkDet (voltage e) (frequency e) (workload e)
        (ipc m) (cpi m) (avg_power m) (peak_power m)
        (total_energy m) (energy_per_inst m) (sim_insts m) (sim_seconds m).

Definition det_body (voltage frequency : Q) (workload : string)
  : result Det :=
  l <- Sample.locals voltage frequency workload ;;
  inv_ipc <- py_div 1 (Sample.l_base_ipc l) ;;
  Ok (mkDet voltage frequency workload
        (py_round (Sample.l_base_ipc l) 3)
        (py_round inv_ipc 3)
        (py_round (Sample.l_avg_power l) 1)
        (py_round (Sample.l_avg_power l * (13 # 10)) 1)
        (py_round (Sample.l_total_energy l) 2)
        (py_round (Sample.l_energy_per_inst l) 4)
        (Sample.l_sim_insts l)
        (py_round (Sample.l_sim_seconds l) 6)).

Fixpoint det_inner (voltage frequency : Q) (ws : list string)
  : result (list Det) :=
  match ws with
  | [] => Ok []
  | w :: ws' =>
      d <- det_body voltage frequency w ;;
      ds <- det_inner voltage frequency ws' ;;
      Ok (d :: ds)
  end.

Fixpoint det_outer (points : list (Q * Q)) (ws : list string)
  : result (list Det) :=
  match points with
  | [] => Ok []
  | (voltage, frequency) :: points' =>
      ds <- det_inner voltage frequency ws ;;
      ds' <- det_outer points' ws ;;
      Ok (ds ++ ds')
  end.

(** The key of a record: its operating point and its workload. *)
Definition key (d : Det) : point * string :=
  ((d_voltage d, d_frequency d), d_workload d).

Definition key_eqb (a b : point * string) : bool :=
  point_eqb (fst a) (fst b) && String.eqb (snd a) (snd b).

End Det.

(** ** Relations on operating points *)

Definition point_eq (p q : point) : Prop :=
  fst p == fst q /\ snd p == snd q.

(** The order of Python tuples. *)
Definition lex_lt (p q : point) : Prop :=
  fst p < fst q \/ (fst p == fst q /\ snd p < snd q).

(** Both coordinates grow. *)
Definition co_lt (p q : point) : Prop :=
  fst p < fst q /\ snd p < snd q.

Definition co_ltb (p q : point) : bool :=
  Qlt_bool (fst p) (fst q) && Qlt_bool (snd p) (snd q).

Fixpoint increasingb (t : list point) : bool :=
  match t with
  | [] => true
  | p :: t' => forallb (co_ltb p) t' && increasingb t'
  end.

(** No two positions of a list hold elements that [eqb] identifies. *)
Fixpoint distinctb {A : Type} (eqb : A -> A -> bool) (l : list A) : bool :=
  match l with
  | [] => true
  | x :: l' =>
      negb (existsb (eqb x) l') && negb (existsb (fun y => eqb y x) l')
      && distinctb eqb l'
  end.

Definition distinct {A : Type} (eqb : A -> A -> bool) (l : list A) : Prop :=
  forall i j x y,
    nth_error l i = Some x -> nth_error l j = Some y ->
    eqb x y = true -> i = j.

(** ** Sample inputs

    Two states of the random generator: every draw is 0, or every draw is
    1/2. *)
Definition st_low : RandomState := mkRandomState (fun _ => 0) 0.
Definition st_mid : RandomState := mkRandomState (fun _ => 1 # 2) 0.

(** A record with the given key, energy per instruction, ipc and power;
    the other metrics are immaterial to the analysis. *)
Definition entry_with (v f : Q) (w : string) (epi i p : Q) : Entry :=
  mkEntry v f w (mkMetrics i 1 p p 1 epi 1 1 1 1).

(** Records in which the point (0.6, 50) has an idle run only. *)
Definition idle_only_results : list Entry :=
  [ entry_with (6 # 10) 50 "idle_scenario" (7 # 10000) (2 # 10) 10;
    entry_with (7 # 10) 100 "stress_test" (5 # 10000) (7 # 10) 20 ].

(** Records, listed out of table order, in which the two lowest points tie
    on energy per instruction and on efficiency. *)
Definition tied_results : list Entry :=
  [ entry_with (7 # 10) 100 "healthcare_monitor_test" (5 # 10000) (6 # 10) 30;
    entry_with (8 # 10) 200 "healthcare_monitor_test" (9 # 10000) (7 # 10) 70;
    entry_with (6 # 10) 50 "healthcare_monitor_test" (5 # 10000) (4 # 10) 20 ].

(** ** Selection of the optimum

    [first_optimum le rows i]: row [i] is optimal for [le], and every other
    row that is as good lies at a later point in tuple order. *)
Definition first_optimum (le : Q -> Q -> Prop) (rows : list Analysis.Row)
    (i : nat) : Prop :=
  exists row,
    nth_error rows i = Some row
    /\ (forall r, In r rows ->
          le (Analysis.row_value row) (Analysis.row_value r))
    /\ (forall j r, nth_error rows j = Some r -> j <> i ->
          le (Analysis.row_value r) (Analysis.row_value row) ->
          lex_lt (Analysis.row_point row) (Analysis.row_point r)).

Definition Qge (x y : Q) : Prop := y <= x.

(** Rows, and outcomes of a plot, that agree up to the representation of
    their numbers. *)
Definition row_equiv (r r' : Analysis.Row) : Prop :=
  Analysis.row_voltage r == Analysis.row_voltage r'
  /\ Analysis.row_frequency r == Analysis.row_frequency r'
  /\ Analysis.row_value r == Analysis.row_value r'.

Definition outcome_equiv (a b : result (list Analysis.Row * nat)) : Prop :=
  match a, b with
  | Ok (rows, i), Ok (rows', i') => Forall2 row_equiv rows rows' /\ i = i'
  | Raise e, Raise e' => e = e'
  | _, _ => False
  end.

(** ** The other figures of [analyze_results.py] *)

(** [set] and [sorted] on workload labels.  Labels are compared as Python
    compares strings, character by character. *)
Fixpoint str_set (xs : list string) : list string :=
  match xs with
  | [] => []
  | w :: xs' =>
      if existsb (String.eqb w) xs' then str_set xs' else w :: str_set xs'
  end.

Fixpoint str_insert (w : string) (l : list string) : list string :=
  match l with
  | [] => [w]
  | u :: l' => if String.ltb u w then u :: str_insert w l' else w :: l
  end.

Definition str_sorted (xs : list string) : list string :=
  fold_right str_insert [] xs.

Module Figures.

Definition workloads_of (results : list Entry) : list string :=
  str_sorted (str_set (map workload results)).

Definition has_workload (w : string) (r : Entry) : bool :=
  String.eqb (workload r) w.

(** [plot_dvfs_power_performance], lines 125-138: one curve per workload,
    in the order of the sorted labels. *)
Record Series : Type := mkSeries {
  s_workload : string;
  s_frequencies : list Q;
  s_avg_powers : list Q
}.

Definition series_of (results : list Entry) (w : string) : Series :=
  let workload_results := filter (has_workload w) results in
  mkSeries w
    (map frequency workload_results)
    (map (fun r => avg_power (metrics r)) workload_results).

Definition plot_dvfs_power_performance (results : list Entry)
  : list Series :=
  map (series_of results) (workloads_of results).

(** The bars of [plot_ipc_comparison] and [plot_cache_performance]: for
    each workload, in sorted order, the first record at a fixed point. *)
Fixpoint first_per_workload (at_results : list Entry) (ws : list string)
  : list Entry :=
  match ws with
  | [] => []
  | w :: ws' =>
      match find (has_workload w) at_results with
      | Some workload_result =>
          workload_result :: first_per_workload at_results ws'
      | None => first_per_workload at_results ws'
      end
  end.

(** [plot_ipc_comparison], lines 212-245: the bars at (1.2 V, 800 MHz);
    [max(ipcs)] (line 245) raises on an empty list. *)
Definition plot_ipc_comparison (results : list Entry)
  : result (list (string * Q)) :=
  let workloads := workloads_of results in
  let max_perf_results :=
    filter (Analysis.at_point (12 # 10) 800) results in
  let bars := first_per_workload max_perf_results workloads in
  let ipcs := map (fun r => ipc (metrics r)) bars in
  _ <- py_max ipcs ;;
  Ok (map (fun r => (workload r, ipc (metrics r))) bars).

(** [plot_cache_performance], lines 263-280: the pairs of bars at
    (0.9 V, 400 MHz), in percent. *)
Definition plot_cache_performance (results : list Entry)
  : list (string * Q * Q) :=
  let workloads := workloads_of results in
  let balanced_results :=
    filter (Analysis.at_point (9 # 10) 400) results in
  map (fun r => (workload r,
                 icache_hit_rate (metrics r) * 100,
                 dcache_hit_rate (metrics r) * 100))
      (first_per_workload balanced_results workloads).

(** [plot_power_breakdown], lines 328-341: the stacked bar of a point,
    from the first record of the baseline workload there. *)
Record Bar : Type := mkBar {
  bar_voltage : Q;
  bar_frequency : Q;
  bar_dynamic : Q;
  bar_static : Q
}.

Definition breakdown (voltage frequency : Q) (point_result : Entry) : Bar :=
  let total_power := avg_power (metrics point_result) in
  let static_p := voltage * 5 in
  let dynamic_p := total_power - static_p in
  mkBar voltage frequency dynamic_p static_p.

Fixpoint breakdown_bars (results : list Entry) (dvfs_points : list point)
  : list Bar :=
  match dvfs_points with
  | [] => []
  | (voltage, frequency) :: rest =>
      match find (Analysis.baseline voltage frequency) results with
      | Some point_result =>
          breakdown voltage frequency point_result
          :: breakdown_bars results rest
      | None => breakdown_bars results rest
      end
  end.

Definition plot_power_breakdown (results : list Entry) : list Bar :=
  breakdown_bars results (Analysis.points_of results).

(** The label written over a stacked bar (line 355). *)
Definition bar_total (b : Bar) : Q := bar_dynamic b + bar_static b.

(** [generate_results_table], lines 432-462.  A row is kept as the record
    it is formatted from; [table_data[0]] (line 460) raises [IndexError]
    when no row was produced. *)
Definition selected_workloads : list string :=
  [ "healthcare_monitor_test"; "intensive_ecg_processing";
    "mixed_workload"; "stress_test" ]%string.

Definition selected (voltage0 frequency0 : Q) (w : string) (r : Entry)
  : bool :=
  Analysis.at_point voltage0 frequency0 r && has_workload w r.

Fixpoint table_rows_at (results : list Entry) (voltage frequency : Q)
    (ws : list string) : list Entry :=
  match ws with
  | [] => []
  | w :: ws' =>
      match find (selected voltage frequency w) results with
      | Some r => r :: table_rows_at results voltage frequency ws'
      | None => table_rows_at results voltage frequency ws'
      end
  end.

Fixpoint table_rows (results : list Entry) (points : list point)
    (ws : list string) : list Entry :=
  match points with
  | [] => []
  | (voltage, frequency) :: points' =>
      table_rows_at results voltage frequency ws
      ++ table_rows results points' ws
  end.

Definition table_data (results : list Entry) : list Entry :=
  table_rows results Analysis.selected_points selected_workloads.

(** What a run of the script can raise: an exception of the built-ins
    above, or the [IndexError] of an empty table. *)
Inductive error : Type :=
| Builtin (e : exn)
| IndexError.

Inductive outcome (A : Type) : Type :=
| Done (a : A)
| Failed (e : error).

Arguments Done {A} a.
Arguments Failed {A} e.

Definition lift {A : Type} (m : result A) : outcome A :=
  match m with
  | Ok a => Done a
  | Raise e => Failed (Builtin e)
  end.

Definition and_then {A B : Type} (m : outcome A) (k : A -> outcome B)
  : outcome B :=
  match m with
  | Done a => k a
  | Failed e => Failed e
  end.

(** [load_dvfs_results], lines 38-47: the parsed results file when it
    exists ([file = Some _]), the sample data otherwise. *)
Definition load_dvfs_results (file : option (list Entry))
    (st : RandomState) : outcome (list Entry * RandomState) :=
  match file with
  | Some results => Done (results, st)
  | None => lift (Sample.generate_sample_dvfs_data st)
  end.

Definition generate_results_table (file : option (list Entry))
    (st : RandomState) : outcome (list Entry * RandomState) :=
  and_then (load_dvfs_results file st) (fun loaded =>
  let (results, st') := loaded in
  match table_data results with
  | [] => Failed IndexError
  | rows => Done (rows, st')
  end).

(** [generate_all_figures], lines 478-489: the figures in order, then the
    table, which loads the results anew. *)
Definition generate_all_figures (file : option (list Entry))
    (st : RandomState) : outcome RandomState :=
  and_then (load_dvfs_results file st) (fun loaded =>
  let (results, st1) := loaded in
  let fig1 := plot_dvfs_power_performance results in
  and_then (lift (Analysis.plot_energy_efficiency results)) (fun fig2 =>
  and_then (lift (plot_ipc_comparison results)) (fun fig3 =>
  let fig4 := plot_cache_performance results in
  let fig5 := plot_power_breakdown results in
  and_then (lift (Analysis.plot_dvfs_efficiency_curve results)) (fun fig6 =>
  and_then (generate_results_table file st1) (fun table =>
  Done (snd table)))))).

End Figures.

(** ** Rounding and random draws *)

(** Half a unit in the [n]-th decimal place. *)
Definition half_ulp (n : nat) : Q := (1 # 2) / inject_Z (10 ^ Z.of_nat n).

(** [a] is [b] up to a rounding to [n] decimals. *)
Definition near (n : nat) (a b : Q) : Prop :=
  b - half_ulp n <= a /\ a <= b + half_ulp n.

(** The hit rates stored for a unit variate [u] (lines 95-96, 111-112). *)
Definition icache_of (u : Q) : Q :=
  py_round ((945 # 1000) + (- (1 # 100) + ((1 # 100) - - (1 # 100)) * u)) 4.

Definition dcache_of (u : Q) : Q :=
  py_round ((955 # 1000) + (- (1 # 100) + ((1 # 100) - - (1 # 100)) * u)) 4.

(** Record [k] of a collection made in state [st] holds the hit rates of
    draws [2k] and [2k+1]. *)
Definition hits_from (st : RandomState) (k : nat) (e : Entry) : Prop :=
  icache_hit_rate (metrics e) = icache_of (draws st (pos st + 2 * k)%nat)
  /\ dcache_hit_rate (metrics e)
     = dcache_of (draws st (pos st + 2 * k + 1)%nat).

Definition bar_point (b : Figures.Bar) : point :=
  (Figures.bar_voltage b, Figures.bar_frequency b).

(** The order of Python strings. *)
Definition str_lt (a b : string) : Prop := String.ltb a b = true.

(** Two records of which one only has the baseline workload. *)
Definition pair_results : list Entry :=
  [ entry_with (7 # 10) 100 "stress_test" (6 # 10000) (7 # 10) 30;
    entry_with (6 # 10) 50 "healthcare_monitor_test" (5 # 10000) (4 # 10) 20 ].

(** ** [healthcare_iot_config.py]: declared ports and clocks *)

Module Ports.

Local Open Scope string_scope.

Inductive Multiplicity : Type :=
| Single   (* Port() *)
| Vector.  (* VectorPort() *)

(** The ports created by [create_l1_instruction_cache] (lines 121-122),
    [create_l1_data_cache] (lines 144-145) and [create_l2_cache]
    (lines 167-168). *)
Definition declared : list (Topology.PortRef * Multiplicity) :=
  [ (Topology.mkPort Topology.ICache "cpu_side", Single);
    (Topology.mkPort Topology.ICache "mem_side", Single);
    (Topology.mkPort Topology.DCache "cpu_side", Single);
    (Topology.mkPort Topology.DCache "mem_side", Single);
    (Topology.mkPort Topology.L2Cache "cpu_side", Vector);
    (Topology.mkPort Topology.L2Cache "mem_side", Single) ].

Definition PortRef_eqb (p q : Topology.PortRef) : bool :=
  Topology.Component_eqb (Topology.owner p) (Topology.owner q)
  && String.eqb (Topology.port_name p) (Topology.port_name q).

(** The number of assignments of [__init__] that bind a port. *)
Definition bindings (p : Topology.PortRef) : nat :=
  List.length
    (filter (fun e => PortRef_eqb p (fst e) || PortRef_eqb p (snd e))
            Topology.wiring).

(** Lines 11-12 and 24. *)
Definition system_clock : string := "800MHz".
Definition min_clock : string := "50MHz".
Definition system_voltage : string := "1.2V".

End Ports.

(** Records in which the point (0.6, 50) has an idle run only and the point
    (0.7, 100) two runs of other workloads. *)
Definition mixed_results : list Entry :=
  [ entry_with (6 # 10) 50 "idle_scenario" (7 # 10000) (2 # 10) 10;
    entry_with (7 # 10) 100 "stress_test" (4 # 10000) (7 # 10) 20;
    entry_with (7 # 10) 100 "mixed_workload" (6 # 10000) (6 # 10) 20 ].


(** * Properties *)

(** ** Comparisons *)

Lemma Qlt_bool_iff (x y : Q) : Qlt_bool x y = true <-> x < y.
Proof.
  unfold Qlt_bool. rewrite negb_true_iff.
  split; intro H.
  - apply Qnot_le_lt. intro L. apply Qle_bool_iff in L. congruence.
  - destruct (Qle_bool y x) eqn:E; [|reflexivity].
    apply Qle_bool_iff in E. exfalso. exact (Qlt_not_le _ _ H E).
Qed.

Lemma Qlt_bool_false_iff (x y : Q) : Qlt_bool x y = false <-> y <= x.
Proof.
  unfold Qlt_bool. rewrite negb_false_iff. apply Qle_bool_iff.
Qed.

Lemma point_eqb_iff (p q : point) : point_eqb p q = true <-> point_eq p q.
Proof.
  unfold point_eqb, point_eq.
  rewrite andb_true_iff, !Qeq_bool_iff. reflexivity.
Qed.

Lemma lex_ltb_iff (p q : point) : lex_ltb p q = true <-> lex_lt p q.
Proof.
  unfold lex_ltb, lex_lt.
  rewrite orb_true_iff, andb_true_iff, !Qlt_bool_iff, Qeq_bool_iff.
  reflexivity.
Qed.

Lemma co_ltb_iff (p q : point) : co_ltb p q = true <-> co_lt p q.
Proof.
  unfold co_ltb, co_lt. rewrite andb_true_iff, !Qlt_bool_iff. reflexivity.
Qed.

Lemma increasingb_sound (t : list point) :
  increasingb t = true -> StronglySorted co_lt t.
Proof.
  induction t as [|p t IH]; simpl; intro H.
  - constructor.
  - apply andb_true_iff in H as [Hp Ht].
    constructor; [auto|].
    rewrite forallb_forall in Hp. apply Forall_forall.
    intros q Hq. apply co_ltb_iff. auto.
Qed.

Lemma co_lt_not_eq (p q : point) : co_lt p q -> point_eqb p q = false.
Proof.
  intros [Hv _]. destruct (point_eqb p q) eqn:E; [|reflexivity].
  apply point_eqb_iff in E as [E _]. rewrite E in Hv.
  exfalso. exact (Qlt_irrefl _ Hv).
Qed.

Lemma co_lt_not_eq_sym (p q : point) : co_lt p q -> point_eqb q p = false.
Proof.
  intros [Hv _]. destruct (point_eqb q p) eqn:E; [|reflexivity].
  apply point_eqb_iff in E as [E _]. rewrite E in Hv.
  exfalso. exact (Qlt_irrefl _ Hv).
Qed.

Section Distinct.
Context {A : Type} (eqb : A -> A -> bool).

Lemma existsb_false_nth (f : A -> bool) (l : list A) (i : nat) (x : A) :
  existsb f l = false -> nth_error l i = Some x -> f x = false.
Proof.
  intros He Hn. apply nth_error_In in Hn.
  destruct (f x) eqn:E; [|reflexivity].
  assert (existsb f l = true) by (apply existsb_exists; eauto).
  congruence.
Qed.

Lemma distinctb_sound (l : list A) :
  distinctb eqb l = true -> distinct eqb l.
Proof.
  induction l as [|a l IH]; intros H i j x y Hi Hj E.
  - destruct i; discriminate.
  - simpl in H. apply andb_true_iff in H as [H H3].
    apply andb_true_iff in H as [H1 H2].
    apply negb_true_iff in H1, H2.
    destruct i as [|i], j as [|j]; simpl in Hi, Hj.
    + reflexivity.
    + injection Hi as ->.
      rewrite (existsb_false_nth _ _ _ _ H1 Hj) in E. discriminate.
    + injection Hj as ->.
      pose proof (existsb_false_nth _ _ _ _ H2 Hi) as H0. simpl in H0.
      congruence.
    + f_equal. exact (IH H3 i j x y Hi Hj E).
Qed.
End Distinct.

(** A table that grows in both coordinates repeats no point. *)
Lemma increasing_distinct (t : list point) :
  StronglySorted co_lt t -> distinct point_eqb t.
Proof.
  induction 1 as [|p t Hs IH Hp]; intros i j x y Hi Hj E.
  - destruct i; discriminate.
  - rewrite Forall_forall in Hp.
    destruct i as [|i], j as [|j]; simpl in Hi, Hj.
    + reflexivity.
    + injection Hi as ->. apply nth_error_In in Hj.
      rewrite (co_lt_not_eq _ _ (Hp _ Hj)) in E. discriminate.
    + injection Hj as ->. apply nth_error_In in Hi.
      rewrite (co_lt_not_eq_sym _ _ (Hp _ Hi)) in E. discriminate.
    + f_equal. exact (IH i j x y Hi Hj E).
Qed.

(** ** The power model of the generator *)

Lemma Qeq_bool_inject_Z_0 (z : Z) : Qeq_bool (inject_Z z) 0 = (z =? 0)%Z.
Proof.
  unfold Qeq_bool, inject_Z. simpl. rewrite Z.mul_1_r.
  destruct z; reflexivity.
Qed.

Lemma power_ok (v f i : Q) :
  Sample.power v f i =
  Ok (Sample.dynamic_power v f i, Sample.static_power v,
      Sample.dynamic_power v f i + Sample.static_power v).
Proof. reflexivity. Qed.

Lemma locals_inv (v f : Q) (w : string) (l : Sample.Locals) :
  Sample.locals v f w = Ok l ->
  let i := Sample.base_ipc f w in
  Sample.l_base_ipc l = i
  /\ Sample.l_dynamic_power l = Sample.dynamic_power v f i
  /\ Sample.l_static_power l = Sample.static_power v
  /\ Sample.l_avg_power l = Sample.dynamic_power v f i + Sample.static_power v
  /\ Sample.l_sim_insts l = Sample.insts_of w
  /\ Sample.seconds_of (Sample.insts_of w) f i = Ok (Sample.l_sim_seconds l)
  /\ Sample.energy (Sample.l_avg_power l) (Sample.l_sim_seconds l)
       (Sample.insts_of w)
     = Ok (Sample.l_total_energy l, Sample.l_energy_per_inst l).
Proof.
  unfold Sample.locals. rewrite power_ok. cbn [bind].
  destruct (Sample.seconds_of _ _ _) as [s|] eqn:Es; cbn [bind]; [|discriminate].
  destruct (Sample.energy _ _ _) as [[te epi]|] eqn:Ee; cbn [bind]; [|discriminate].
  intro H. injection H as <-. cbn. rewrite Ee. repeat split; reflexivity.
Qed.

Lemma insts_of_pos (w : string) : (0 < Sample.insts_of w)%Z.
Proof.
  unfold Sample.insts_of.
  destruct (String.eqb w "stress_test"); [reflexivity|].
  destruct (String.eqb w "idle_scenario"); reflexivity.
Qed.

(** C1, as stated, fails: the capacitance and leakage constants are not
    inputs of the power computation.  Were the result [C * v^2 * f * ipc]
    and [k * v] for whatever constants a configuration supplies, it would be
    so for [C = 2] and [k = 3] at [v = f = ipc = 1]; the code yields a
    dynamic power of [1] there. *)
Lemma power_constants_are_fixed :
  ~ (forall C k : Q, exists d s t : Q,
        Sample.power 1 1 1 = Ok (d, s, t)
        /\ d == C * 1 ^ 2 * 1 * 1 /\ s == k * 1 /\ t == d + s).
Proof.
  intro H. destruct (H 2 3) as (d & s & t & E & Hd & _).
  rewrite power_ok in E. injection E as <- _ _.
  vm_compute in Hd. discriminate.
Qed.

(** C1 (amended): for every voltage, frequency and ipc the power
    computation yields dynamic = 1 * voltage^2 * frequency * ipc,
    static = 5 * voltage and total = dynamic + static, the constants 1 and 5
    being fixed in the code; the generator computes the power of every
    (point, workload) run this way, with the run's [base_ipc] as ipc. *)
Theorem power_formula :
  (forall v f i : Q, exists d s t : Q,
      Sample.power v f i = Ok (d, s, t)
      /\ d == 1 * v ^ 2 * f * i /\ s == 5 * v /\ t == d + s)
  /\ (forall (v f : Q) (w : string),
        match Sample.locals v f w with
        | Ok l =>
            Sample.l_dynamic_power l == 1 * v ^ 2 * f * Sample.l_base_ipc l
            /\ Sample.l_static_power l == 5 * v
            /\ Sample.l_avg_power l
               == Sample.l_dynamic_power l + Sample.l_static_power l
        | Raise _ => True
        end).
Proof.
  split.
  - intros v f i. rewrite power_ok. do 3 eexists. split; [reflexivity|].
    unfold Sample.dynamic_power, Sample.static_power.
    repeat split; try reflexivity; ring.
  - intros v f w. destruct (Sample.locals v f w) as [l|] eqn:E; [|exact I].
    apply locals_inv in E. cbv zeta in E.
    destruct E as (Hi & Hd & Hs & Ha & _).
    rewrite Hd, Hs, Ha, Hi.
    unfold Sample.dynamic_power, Sample.static_power.
    repeat split; try reflexivity; ring.
Qed.

(** C2: for voltage > 0, frequency > 0 and ipc >= 0 the total power does
    not decrease when the voltage grows (frequency and ipc fixed) nor when
    the frequency grows (voltage and ipc fixed). *)
Theorem power_monotone (v1 v2 f1 f2 i : Q) :
  0 < v1 -> v1 <= v2 -> 0 < f1 -> f1 <= f2 -> 0 <= i ->
  exists d s t dv sv tv df sf tf : Q,
    Sample.power v1 f1 i = Ok (d, s, t)
    /\ Sample.power v2 f1 i = Ok (dv, sv, tv)
    /\ Sample.power v1 f2 i = Ok (df, sf, tf)
    /\ t <= tv /\ t <= tf.
Proof.
  intros Hv Hvv Hf Hff Hi. rewrite !power_ok.
  do 9 eexists. do 3 (split; [reflexivity|]).
  unfold Sample.dynamic_power, Sample.static_power.
  assert (Hfi : 0 <= f1 * i) by nra.
  assert (Hsq : 0 <= (v2 - v1) * (v2 + v1)) by nra.
  assert (Hp : 0 <= (v2 - v1) * (v2 + v1) * (f1 * i))
    by (apply Qmult_le_0_compat; assumption).
  assert (Hvi : 0 <= v1 * v1 * i) by nra.
  assert (Hq : 0 <= (f2 - f1) * (v1 * v1 * i))
    by (apply Qmult_le_0_compat; [lra | assumption]).
  simpl. split; nra.
Qed.

Lemma power_monotone_witness :
  exists d s t dv sv tv df sf tf : Q,
    Sample.power (6 # 10) 50 (1 # 2) = Ok (d, s, t)
    /\ Sample.power (7 # 10) 50 (1 # 2) = Ok (dv, sv, tv)
    /\ Sample.power (6 # 10) 100 (1 # 2) = Ok (df, sf, tf)
    /\ t <= tv /\ t <= tf.
Proof.
  apply (power_monotone (6 # 10) (7 # 10) 50 100 (1 # 2));
    unfold Qlt, Qle; simpl; lia.
Defined.

(** ** The generator and its random state *)

Lemma body_det (v f : Q) (w : string) (st : RandomState) :
  match Sample.body v f w st with
  | Ok (e, st') =>
      Det.det_body v f w = Ok (Det.det e)
      /\ st' = mkRandomState (draws st) (S (S (pos st)))
  | Raise x => Det.det_body v f w = Raise x
  end.
Proof.
  unfold Sample.body, Det.det_body.
  destruct (Sample.locals v f w) as [l|x]; cbn [bind]; [|reflexivity].
  unfold uniform, random_sample, Sample.entry_of.
  destruct (py_div 1 (Sample.l_base_ipc l)) as [q|x]; cbn [bind];
    [|reflexivity].
  split; reflexivity.
Qed.

Lemma inner_det (v f : Q) (ws : list string) :
  forall (acc : list Entry) (st : RandomState),
    match Sample.inner v f ws acc st with
    | Ok (res, _) =>
        exists ds, Det.det_inner v f ws = Ok ds
                   /\ map Det.det res = map Det.det acc ++ ds
    | Raise x => Det.det_inner v f ws = Raise x
    end.
Proof.
  induction ws as [|w ws IH]; intros acc st; simpl.
  - exists []. rewrite app_nil_r. split; reflexivity.
  - pose proof (body_det v f w st) as Hb.
    destruct (Sample.body v f w st) as [[e st']|x]; cbn [bind].
    + destruct Hb as [Hb _]. rewrite Hb. cbn [bind].
      specialize (IH (acc ++ [e]) st').
      destruct (Sample.inner v f ws (acc ++ [e]) st') as [[res st'']|x].
      * destruct IH as (ds & Hds & Hm). rewrite Hds. cbn [bind].
        exists (Det.det e :: ds). split; [reflexivity|].
        rewrite Hm, map_app, <- app_assoc. reflexivity.
      * rewrite IH. reflexivity.
    + rewrite Hb. reflexivity.
Qed.

Lemma outer_det (ws : list string) (points : list (Q * Q)) :
  forall (acc : list Entry) (st : RandomState),
    match Sample.outer points ws acc st with
    | Ok (res, _) =>
        exists ds, Det.det_outer points ws = Ok ds
                   /\ map Det.det res = map Det.det acc ++ ds
    | Raise x => Det.det_outer points ws = Raise x
    end.
Proof.
  induction points as [|[v f] points IH]; intros acc st; simpl.
  - exists []. rewrite app_nil_r. split; reflexivity.
  - pose proof (inner_det v f ws acc st) as Hi.
    destruct (Sample.inner v f ws acc st) as [[res st']|x]; cbn [bind].
    + destruct Hi as (ds & Hds & Hm). rewrite Hds. cbn [bind].
      specialize (IH res st').
      destruct (Sample.outer points ws res st') as [[res' st'']|x].
      * destruct IH as (ds' & Hds' & Hm'). rewrite Hds'. cbn [bind].
        exists (ds ++ ds'). split; [reflexivity|].
        rewrite Hm', Hm, <- app_assoc. reflexivity.
      * rewrite IH. reflexivity.
    + rewrite Hi. reflexivity.
Qed.

(** The generator always returns, and everything but the hit rates of its
    records is the list that [Det.det_outer] computes. *)
Lemma generate_det (st : RandomState) :
  exists (results : list Entry) (st' : RandomState) (ds : list Det.Det),
    Sample.generate_sample_dvfs_data st = Ok (results, st')
    /\ Det.det_outer Sample.dvfs_points Sample.workloads = Ok ds
    /\ map Det.det results = ds.
Proof.
  unfold Sample.generate_sample_dvfs_data.
  pose proof (outer_det Sample.workloads Sample.dvfs_points [] st) as H.
  destruct (Sample.outer _ _ _ _) as [[res st']|x].
  - destruct H as (ds & Hds & Hm). exists res, st', ds. auto.
  - exfalso. vm_compute in H. discriminate.
Qed.

(** C9, as stated, fails: the generator takes no argument, and yet two
    calls made in two states of the numpy generator return different
    collections (the hit rates of the first record are 0.935 and 0.945). *)
Lemma generator_depends_on_random_state :
  exists (r1 r2 : list Entry) (s1 s2 : RandomState),
    Sample.generate_sample_dvfs_data st_low = Ok (r1, s1)
    /\ Sample.generate_sample_dvfs_data st_mid = Ok (r2, s2)
    /\ map (fun e => icache_hit_rate (metrics e)) (firstn 1 r1)
       = [9350 # 10000]
    /\ map (fun e => icache_hit_rate (metrics e)) (firstn 1 r2)
       = [9450 # 10000]
    /\ r1 <> r2.
Proof.
  destruct (Sample.generate_sample_dvfs_data st_low) as [[r1 s1]|] eqn:E1;
    [|vm_compute in E1; discriminate].
  destruct (Sample.generate_sample_dvfs_data st_mid) as [[r2 s2]|] eqn:E2;
    [|vm_compute in E2; discriminate].
  exists r1, r2, s1, s2.
  assert (H1 : map (fun e => icache_hit_rate (metrics e)) (firstn 1 r1)
               = [9350 # 10000]).
  { vm_compute in E1. injection E1 as <- _. vm_compute. reflexivity. }
  assert (H2 : map (fun e => icache_hit_rate (metrics e)) (firstn 1 r2)
               = [9450 # 10000]).
  { vm_compute in E2. injection E2 as <- _. vm_compute. reflexivity. }
  repeat split; try assumption.
  intro Heq. rewrite Heq, H2 in H1. discriminate.
Qed.

(** C9 (amended): whatever the state of the numpy generator, the sample
    generator returns a collection, and two calls agree on every field of
    every record except [icache_hit_rate] and [dcache_hit_rate], which are
    drawn from the random state. *)
Theorem generator_deterministic_up_to_hit_rates (st1 st2 : RandomState) :
  exists (r1 r2 : list Entry) (s1 s2 : RandomState),
    Sample.generate_sample_dvfs_data st1 = Ok (r1, s1)
    /\ Sample.generate_sample_dvfs_data st2 = Ok (r2, s2)
    /\ map Det.det r1 = map Det.det r2.
Proof.
  destruct (generate_det st1) as (r1 & s1 & ds1 & E1 & D1 & M1).
  destruct (generate_det st2) as (r2 & s2 & ds2 & E2 & D2 & M2).
  exists r1, r2, s1, s2. repeat split; try assumption.
  rewrite M1, M2. congruence.
Qed.

(** C10: whatever the random state, the generator returns exactly one
    record for each of the 6 x 6 (operating point, workload) combinations,
    in the order of the two loops: 36 records, no two with the same
    (voltage, frequency, workload) key, each with a positive instruction
    count and a positive elapsed time. *)
Theorem generator_one_record_per_key (st : RandomState) :
  exists (results : list Entry) (st' : RandomState),
    Sample.generate_sample_dvfs_data st = Ok (results, st')
    /\ List.length results = 36%nat
    /\ map (fun e => Det.key (Det.det e)) results
       = list_prod Sample.dvfs_points Sample.workloads
    /\ distinct Det.key_eqb (map (fun e => Det.key (Det.det e)) results)
    /\ Forall (fun e => (0 < sim_insts (metrics e))%Z
                        /\ 0 < sim_seconds (metrics e)) results.
Proof.
  destruct (generate_det st) as (res & st' & ds & E & D & M).
  exists res, st'. split; [exact E|].
  vm_compute in D. injection D as D.
  assert (Hk : map (fun e => Det.key (Det.det e)) res = map Det.key ds).
  { rewrite <- M, map_map. reflexivity. }
  split; [|split; [|split]].
  - rewrite <- (length_map Det.det), M, <- D. reflexivity.
  - rewrite Hk, <- D. vm_compute. reflexivity.
  - rewrite Hk, <- D. apply distinctb_sound. vm_compute. reflexivity.
  - assert (Hd : Forall (fun d => (0 < Det.d_sim_insts d)%Z
                                  /\ 0 < Det.d_sim_seconds d) ds).
    { rewrite <- D. repeat constructor. }
    rewrite <- M in Hd. rewrite Forall_map in Hd. exact Hd.
Qed.

(** ** The DVFS tables *)

(** C6: each DVFS table written in the program (the table of quantity
    strings of the gem5 configuration, the table of the sample generator and
    the selection of the results table) is strictly increasing in voltage
    and in frequency, for every pair of positions, and repeats no point. *)
Theorem dvfs_tables_increasing :
  (exists t : list point,
      Config.parse_table Config.dvfs_points = Some t
      /\ StronglySorted co_lt t /\ distinct point_eqb t)
  /\ (StronglySorted co_lt Sample.dvfs_points
      /\ distinct point_eqb Sample.dvfs_points)
  /\ (StronglySorted co_lt Analysis.selected_points
      /\ distinct point_eqb Analysis.selected_points).
Proof.
  assert (H : forall t, increasingb t = true ->
                        StronglySorted co_lt t /\ distinct point_eqb t).
  { intros t Ht. apply increasingb_sound in Ht.
    split; [assumption | apply increasing_distinct; assumption]. }
  split; [|split].
  - eexists. split; [vm_compute; reflexivity|]. apply H. reflexivity.
  - apply H. reflexivity.
  - apply H. reflexivity.
Qed.

(** The table of the configuration denotes the points of the generator. *)
Lemma config_table_matches_sample :
  exists t : list point,
    Config.parse_table Config.dvfs_points = Some t
    /\ Forall2 point_eq t Sample.dvfs_points.
Proof.
  eexists. split; [vm_compute; reflexivity|].
  repeat constructor.
Qed.

(** ** The port wiring *)

Module TopologyFacts.
Import Topology.

(** Each binding joins a memory-facing port to a CPU-facing port of another
    object. *)
Lemma wiring_well_typed :
  Forall (fun e => exists c d, orient e = Some (c, d) /\ c <> d
                               /\ role_of (fst e) <> role_of (snd e))
         wiring.
Proof.
  repeat constructor; do 2 eexists;
    (split; [reflexivity | split; discriminate]).
Qed.

Lemma edges_eq :
  edges = [ (ICache, L2Cache); (DCache, L2Cache); (L2Cache, MemBus);
            (MemBus, MemCtrl); (System, MemBus) ].
Proof. reflexivity. Qed.

Lemma edge_deepens (c d : Component) :
  In (c, d) edges -> (depth c < depth d)%nat.
Proof.
  rewrite edges_eq. simpl.
  intros [H|[H|[H|[H|[H|[]]]]]]; injection H as <- <-; simpl; lia.
Qed.

Lemma path_deepens (c d : Component) : path c d -> (depth c < depth d)%nat.
Proof.
  induction 1 as [c d H | c d e H _ IH].
  - apply edge_deepens; assumption.
  - apply edge_deepens in H. lia.
Qed.

(** The oriented graph has no cycle. *)
Lemma acyclic (c : Component) : ~ path c c.
Proof.
  intro H. apply path_deepens in H. lia.
Qed.

(** The caches and the bus reach the memory controller. *)
Lemma hierarchy_reaches_mem_ctrl (c : Component) :
  In c [ICache; DCache; L2Cache; MemBus; MemCtrl] -> reaches c MemCtrl.
Proof.
  assert (Hb : reaches MemBus MemCtrl).
  { apply reaches_step with MemCtrl; [simpl; auto 10 | apply reaches_here]. }
  assert (Hl : reaches L2Cache MemCtrl).
  { apply reaches_step with MemBus; [simpl; auto 10 | exact Hb]. }
  simpl. intros [<-|[<-|[<-|[<-|[<-|[]]]]]]; try assumption.
  - apply reaches_step with L2Cache; [simpl; auto 10 | exact Hl].
  - apply reaches_step with L2Cache; [simpl; auto 10 | exact Hl].
  - apply reaches_here.
Qed.

(** C8: the CPU is one of the components, no binding starts or ends at a
    CPU port, and so the CPU does not reach the memory controller: the
    reachability part of the claim fails for the CPU. *)
Theorem cpu_does_not_reach_mem_ctrl :
  In CPU components
  /\ Forall (fun e => owner (fst e) <> CPU /\ owner (snd e) <> CPU) wiring
  /\ successors CPU = []
  /\ ~ reaches CPU MemCtrl.
Proof.
  split; [simpl; auto|].
  split; [repeat constructor; discriminate|].
  split; [reflexivity|].
  intro H. inversion H as [|c d e Hin _]; subst.
  rewrite edges_eq in Hin. simpl in Hin.
  repeat (destruct Hin as [Hin|Hin]; [discriminate|]). exact Hin.
Qed.

End TopologyFacts.

(** ** Sets and sorting of operating points *)

Lemma lex_lt_trans (p q r : point) : lex_lt p q -> lex_lt q r -> lex_lt p r.
Proof.
  destruct p as [a b], q as [c d], r as [e f]. unfold lex_lt. simpl. lra.
Qed.

Lemma lex_lt_asym (p q : point) : lex_lt p q -> lex_lt q p -> False.
Proof.
  destruct p as [a b], q as [c d]. unfold lex_lt. simpl. lra.
Qed.

Lemma lex_total (p q : point) :
  lex_ltb q p = false -> point_eqb p q = false -> lex_lt p q.
Proof.
  intros H1 H2. apply not_true_iff_false in H1, H2.
  rewrite lex_ltb_iff in H1. rewrite point_eqb_iff in H2.
  destruct p as [a b], q as [c d]. unfold lex_lt, point_eq in *.
  simpl in *. lra.
Qed.

Lemma point_eq_sym (p q : point) : point_eq p q -> point_eq q p.
Proof. intros [H1 H2]. split; symmetry; assumption. Qed.

Lemma point_eq_trans (p q r : point) :
  point_eq p q -> point_eq q r -> point_eq p r.
Proof.
  intros [H1 H2] [H3 H4]. split; etransitivity; eassumption.
Qed.

Lemma point_eq_refl (p : point) : point_eq p p.
Proof. split; reflexivity. Qed.

Lemma py_set_In (xs : list point) (p : point) :
  In p (py_set xs) -> In p xs.
Proof.
  induction xs as [|x xs IH]; simpl; [auto|].
  destruct (existsb (point_eqb x) xs); simpl; intuition.
Qed.

(** Every element is represented in the set. *)
Lemma py_set_complete (xs : list point) (p : point) :
  In p xs -> exists q, In q (py_set xs) /\ point_eq p q.
Proof.
  revert p. induction xs as [|x xs IH]; intro p; simpl; [intros []|].
  intros [<-|H].
  - destruct (existsb (point_eqb x) xs) eqn:E.
    + apply existsb_exists in E as (y & Hy & Exy).
      apply point_eqb_iff in Exy.
      destruct (IH y Hy) as (q & Hq & Eq). exists q.
      split; [assumption | eapply point_eq_trans; eassumption].
    + exists x. split; [left; reflexivity | apply point_eq_refl].
  - destruct (IH p H) as (q & Hq & Eq). exists q.
    split; [|assumption].
    destruct (existsb (point_eqb x) xs); [|right]; assumption.
Qed.

(** No two elements of the set are equal. *)
Lemma py_set_distinct (xs : list point) :
  StronglySorted (fun p q => point_eqb p q = false) (py_set xs).
Proof.
  induction xs as [|x xs IH]; simpl; [constructor|].
  destruct (existsb (point_eqb x) xs) eqn:E; [assumption|].
  constructor; [assumption|].
  apply Forall_forall. intros q Hq. apply py_set_In in Hq.
  destruct (point_eqb x q) eqn:Exq; [|reflexivity].
  assert (existsb (point_eqb x) xs = true)
    by (apply existsb_exists; eauto).
  congruence.
Qed.

Lemma insert_In (p x : point) (l : list point) :
  In x (insert p l) <-> x = p \/ In x l.
Proof.
  induction l as [|q l IH]; simpl.
  - intuition.
  - destruct (lex_ltb q p); simpl; rewrite ?IH; intuition.
Qed.

Lemma sorted_In (x : point) (l : list point) : In x (sorted l) <-> In x l.
Proof.
  induction l as [|p l IH]; simpl; [reflexivity|].
  rewrite insert_In, IH. intuition.
Qed.

Lemma insert_Forall (P : point -> Prop) (p : point) (l : list point) :
  P p -> Forall P l -> Forall P (insert p l).
Proof.
  intros Hp Hl. apply Forall_forall. intros x Hx.
  apply insert_In in Hx as [->|Hx]; [assumption|].
  rewrite Forall_forall in Hl. auto.
Qed.

Lemma insert_strict (p : point) (l : list point) :
  StronglySorted lex_lt l ->
  Forall (fun q => point_eqb p q = false) l ->
  StronglySorted lex_lt (insert p l).
Proof.
  induction 1 as [|q l Hs IH Hq]; intro Hne; simpl.
  - repeat constructor.
  - inversion Hne as [|? ? Hpq Hne']; subst.
    destruct (lex_ltb q p) eqn:E.
    + constructor; [auto|].
      apply insert_Forall; [apply lex_ltb_iff; assumption | assumption].
    + pose proof (lex_total p q E Hpq) as Hlt.
      constructor; [constructor; assumption|].
      constructor; [assumption|].
      eapply Forall_impl; [|exact Hq].
      intros r Hr. eapply lex_lt_trans; eassumption.
Qed.

Lemma sorted_strict (l : list point) :
  StronglySorted (fun p q => point_eqb p q = false) l ->
  StronglySorted lex_lt (sorted l).
Proof.
  induction 1 as [|p l Hs IH Hp]; simpl; [constructor|].
  apply insert_strict; [exact IH|].
  apply Forall_forall. intros q Hq.
  change (In q (sorted l)) in Hq. rewrite sorted_In in Hq.
  rewrite Forall_forall in Hp. exact (Hp q Hq).
Qed.

(** The points of a collection of records come in strictly increasing
    tuple order, whatever the order of the records. *)
Lemma points_of_strict (results : list Entry) :
  StronglySorted lex_lt (Analysis.points_of results).
Proof.
  unfold Analysis.points_of. apply sorted_strict, py_set_distinct.
Qed.

Lemma points_of_In (results : list Entry) (p : point) :
  In p (Analysis.points_of results) ->
  exists r, In r results /\ p = (voltage r, frequency r).
Proof.
  unfold Analysis.points_of. intro H.
  apply sorted_In, py_set_In, in_map_iff in H as (r & <- & Hr). eauto.
Qed.

Lemma points_of_complete (results : list Entry) (r : Entry) :
  In r results ->
  exists p, In p (Analysis.points_of results)
            /\ point_eq (voltage r, frequency r) p.
Proof.
  intro H. unfold Analysis.points_of.
  destruct (py_set_complete
              (map (fun r => (voltage r, frequency r)) results)
              (voltage r, frequency r)) as (q & Hq & E).
  { apply in_map_iff. eauto. }
  exists q. split; [apply sorted_In|]; assumption.
Qed.

Lemma StronglySorted_nth {A : Type} (R : A -> A -> Prop) (l : list A) :
  StronglySorted R l ->
  forall i j a b, (i < j)%nat ->
    nth_error l i = Some a -> nth_error l j = Some b -> R a b.
Proof.
  induction 1 as [|x l Hs IH Hx]; intros i j a b Hij Hi Hj.
  - destruct i; discriminate.
  - destruct j as [|j]; [lia|]. simpl in Hj.
    destruct i as [|i]; simpl in Hi.
    + injection Hi as ->. rewrite Forall_forall in Hx.
      apply Hx. eapply nth_error_In; eassumption.
    + apply (IH i j); [lia | assumption | assumption].
Qed.

(** ** [np.argmin] and [np.argmax] *)

Lemma argmin_from_spec (xs : list Q) :
  forall (pre : list Q) (bi : nat) (b : Q),
    nth_error pre bi = Some b ->
    (forall x, In x pre -> b <= x) ->
    (forall j x, (j < bi)%nat -> nth_error pre j = Some x -> b < x) ->
    exists m,
      nth_error (pre ++ xs) (argmin_from bi b (List.length pre) xs) = Some m
      /\ (forall x, In x (pre ++ xs) -> m <= x)
      /\ (forall j x, (j < argmin_from bi b (List.length pre) xs)%nat ->
            nth_error (pre ++ xs) j = Some x -> m < x).
Proof.
  induction xs as [|x xs IH]; intros pre bi b Hb Hle Hlt; simpl.
  - exists b. rewrite app_nil_r. auto.
  - assert (Hbi : (bi < List.length pre)%nat)
      by (apply nth_error_Some; congruence).
    assert (Hlen : List.length (pre ++ [x]) = S (List.length pre))
      by (rewrite length_app; simpl; lia).
    destruct (Qlt_bool x b) eqn:E.
    + apply Qlt_bool_iff in E.
      specialize (IH (pre ++ [x]) (List.length pre) x).
      rewrite Hlen, <- app_assoc in IH. simpl in IH. apply IH.
      * rewrite nth_error_app2, Nat.sub_diag; [reflexivity | lia].
      * intros y Hy. apply in_app_iff in Hy as [Hy|[<-|[]]].
        -- apply Hle in Hy. lra.
        -- lra.
      * intros j y Hj Hy. rewrite nth_error_app1 in Hy by assumption.
        apply nth_error_In, Hle in Hy. lra.
    + apply Qlt_bool_false_iff in E.
      specialize (IH (pre ++ [x]) bi b).
      rewrite Hlen, <- app_assoc in IH. simpl in IH. apply IH.
      * rewrite nth_error_app1 by assumption. assumption.
      * intros y Hy. apply in_app_iff in Hy as [Hy|[<-|[]]]; auto.
      * intros j y Hj Hy. rewrite nth_error_app1 in Hy by lia.
        eapply Hlt; eassumption.
Qed.

Lemma np_argmin_spec (xs : list Q) (i : nat) :
  np_argmin xs = Ok i ->
  exists m,
    nth_error xs i = Some m
    /\ (forall x, In x xs -> m <= x)
    /\ (forall j x, (j < i)%nat -> nth_error xs j = Some x -> m < x).
Proof.
  destruct xs as [|x xs]; simpl; [discriminate|].
  intro H. injection H as <-.
  apply (argmin_from_spec xs [x] 0 x).
  - reflexivity.
  - intros y [<-|[]]. lra.
  - intros j y Hj. lia.
Qed.

Lemma Qlt_bool_opp (x y : Q) : Qlt_bool (- x) (- y) = Qlt_bool y x.
Proof.
  destruct (Qlt_bool y x) eqn:E.
  - apply Qlt_bool_iff in E. apply Qlt_bool_iff. lra.
  - apply Qlt_bool_false_iff in E. apply Qlt_bool_false_iff. lra.
Qed.

Lemma argmax_from_opp (xs : list Q) :
  forall (bi : nat) (b : Q) (i : nat),
    argmax_from bi b i xs = argmin_from bi (- b) i (map Qopp xs).
Proof.
  induction xs as [|x xs IH]; intros bi b i; simpl; [reflexivity|].
  rewrite Qlt_bool_opp. destruct (Qlt_bool b x); apply IH.
Qed.

Lemma np_argmax_spec (xs : list Q) (i : nat) :
  np_argmax xs = Ok i ->
  exists m,
    nth_error xs i = Some m
    /\ (forall x, In x xs -> x <= m)
    /\ (forall j x, (j < i)%nat -> nth_error xs j = Some x -> x < m).
Proof.
  intro H.
  assert (Hmin : np_argmin (map Qopp xs) = Ok i).
  { destruct xs as [|x xs]; simpl in *; [discriminate|].
    rewrite <- argmax_from_opp. assumption. }
  apply np_argmin_spec in Hmin as (m' & Hn & Hle & Hlt).
  rewrite nth_error_map in Hn.
  destruct (nth_error xs i) as [m|] eqn:Em; [|discriminate].
  injection Hn as <-. exists m. split; [reflexivity|]. split.
  - intros x Hx. specialize (Hle (- x) (in_map Qopp _ _ Hx)). lra.
  - intros j x Hj Hx. specialize (Hlt j (- x) Hj).
    rewrite nth_error_map, Hx in Hlt. specialize (Hlt eq_refl). lra.
Qed.

Lemma np_argmin_raises (xs : list Q) (e : exn) :
  np_argmin xs = Raise e -> xs = [] /\ e = ValueError.
Proof.
  destruct xs; simpl; [|discriminate]. intro H. injection H as <-. auto.
Qed.

Lemma np_argmax_raises (xs : list Q) (e : exn) :
  np_argmax xs = Raise e -> xs = [] /\ e = ValueError.
Proof.
  destruct xs; simpl; [|discriminate]. intro H. injection H as <-. auto.
Qed.

(** ** The per-point tables *)

Module AnalysisFacts.
Import Analysis.

(** The rows of the energy table: one for each point that has a record of
    a non-idle workload, holding the mean over these records; the other
    points leave no row. *)
Lemma energy_rows_In (results : list Entry) (pts : list point) (row : Row) :
  In row (energy_rows results pts) <->
  exists v f,
    In (v, f) pts
    /\ active_results results v f <> []
    /\ row = mkRow v f (np_mean (map epi_of (active_results results v f))).
Proof.
  induction pts as [|[v f] pts IH]; simpl.
  - split; [intros [] | intros (? & ? & [] & _)].
  - destruct (active_results results v f) as [|a act] eqn:E.
    + rewrite IH. split.
      * intros (v' & f' & Hin & Hne & Hrow). exists v', f'. auto.
      * intros (v' & f' & [Heq|Hin] & Hne & Hrow).
        -- injection Heq as <- <-. congruence.
        -- exists v', f'. auto.
    + simpl. rewrite IH. split.
      * intros [<-|(v' & f' & Hin & Hne & Hrow)].
        -- exists v, f. rewrite E. repeat split; [auto | discriminate].
        -- exists v', f'. auto.
      * intros (v' & f' & [Heq|Hin] & Hne & Hrow).
        -- injection Heq as <- <-. rewrite E in Hrow. left. auto.
        -- right. exists v', f'. auto.
Qed.

Lemma energy_rows_Forall (P : point -> Prop) (results : list Entry)
    (pts : list point) :
  Forall P pts -> Forall P (map row_point (energy_rows results pts)).
Proof.
  induction 1 as [|[v f] pts Hp Hpts IH]; simpl; [constructor|].
  destruct (active_results results v f); [assumption|].
  simpl. constructor; assumption.
Qed.

Lemma energy_rows_strict (results : list Entry) (pts : list point) :
  StronglySorted lex_lt pts ->
  StronglySorted lex_lt (map row_point (energy_rows results pts)).
Proof.
  induction 1 as [|[v f] pts Hs IH Hp]; simpl; [constructor|].
  destruct (active_results results v f); [assumption|].
  simpl. constructor; [assumption|].
  apply energy_rows_Forall. assumption.
Qed.

Lemma efficiency_rows_Forall (P : point -> Prop) (results : list Entry)
    (pts : list point) :
  Forall P pts ->
  forall rows, efficiency_rows results pts = Ok rows ->
               Forall P (map row_point rows).
Proof.
  induction 1 as [|[v f] pts Hp Hpts IH]; simpl; intros rows H.
  - injection H as <-. constructor.
  - destruct (find (baseline v f) results) as [r|]; [|auto].
    destruct (py_div _ _) as [q|]; cbn [bind] in H; [|discriminate].
    destruct (efficiency_rows results pts) as [rows'|]; cbn [bind] in H;
      [|discriminate].
    injection H as <-. simpl. constructor; auto.
Qed.

Lemma efficiency_rows_strict (results : list Entry) (pts : list point) :
  StronglySorted lex_lt pts ->
  forall rows, efficiency_rows results pts = Ok rows ->
               StronglySorted lex_lt (map row_point rows).
Proof.
  induction 1 as [|[v f] pts Hs IH Hp]; simpl; intros rows H.
  - injection H as <-. constructor.
  - destruct (find (baseline v f) results) as [r|]; [|auto].
    destruct (py_div _ _) as [q|]; cbn [bind] in H; [|discriminate].
    destruct (efficiency_rows results pts) as [rows'|] eqn:E;
      cbn [bind] in H; [|discriminate].
    injection H as <-. simpl. constructor; [auto|].
    eapply efficiency_rows_Forall; eassumption.
Qed.

Lemma efficiency_rows_raises (results : list Entry) (pts : list point)
    (e : exn) :
  efficiency_rows results pts = Raise e -> e = ZeroDivisionError.
Proof.
  induction pts as [|[v f] pts IH]; simpl; [discriminate|].
  destruct (find (baseline v f) results) as [r|]; [|auto].
  unfold py_div. destruct (Qeq_bool _ 0); cbn [bind]; [congruence|].
  destruct (efficiency_rows results pts) as [rows'|]; cbn [bind];
    [discriminate|].
  intro H. injection H as <-. auto.
Qed.

(** The first extremum of a table sorted by point is the optimum at the
    earliest point. *)
Lemma first_min_optimum (rows : list Row) (i : nat) :
  StronglySorted lex_lt (map row_point rows) ->
  np_argmin (values rows) = Ok i ->
  first_optimum Qle rows i.
Proof.
  intros Hs H. apply np_argmin_spec in H as (m & Hn & Hle & Hlt).
  unfold values in *. rewrite nth_error_map in Hn.
  destruct (nth_error rows i) as [row|] eqn:Ei; [|discriminate].
  injection Hn as <-. exists row. split; [exact Ei|]. split.
  - intros r Hr. apply Hle, in_map, Hr.
  - intros j r Hj Hne Hv.
    destruct (Nat.lt_trichotomy j i) as [Hji|[->|Hij]]; [|congruence|].
    + specialize (Hlt j (row_value r) Hji).
      rewrite nth_error_map, Hj in Hlt. specialize (Hlt eq_refl). lra.
    + apply (StronglySorted_nth _ _ Hs i j); [assumption| |];
        rewrite nth_error_map; [rewrite Ei | rewrite Hj]; reflexivity.
Qed.

Lemma first_max_optimum (rows : list Row) (i : nat) :
  StronglySorted lex_lt (map row_point rows) ->
  np_argmax (values rows) = Ok i ->
  first_optimum Qge rows i.
Proof.
  intros Hs H. apply np_argmax_spec in H as (m & Hn & Hle & Hlt).
  unfold values, Qge in *. rewrite nth_error_map in Hn.
  destruct (nth_error rows i) as [row|] eqn:Ei; [|discriminate].
  injection Hn as <-. exists row. split; [exact Ei|]. split.
  - intros r Hr. apply Hle, in_map, Hr.
  - intros j r Hj Hne Hv.
    destruct (Nat.lt_trichotomy j i) as [Hji|[->|Hij]]; [|congruence|].
    + specialize (Hlt j (row_value r) Hji).
      rewrite nth_error_map, Hj in Hlt. specialize (Hlt eq_refl). lra.
    + apply (StronglySorted_nth _ _ Hs i j); [assumption| |];
        rewrite nth_error_map; [rewrite Ei | rewrite Hj]; reflexivity.
Qed.

(** The optimum so described is unique: the choice depends on the table
    and on the order of the points alone. *)
Lemma first_optimum_unique (le : Q -> Q -> Prop) (rows : list Row)
    (i i' : nat) :
  first_optimum le rows i -> first_optimum le rows i' -> i' = i.
Proof.
  intros (row & Hn & Hopt & Htie) (row' & Hn' & Hopt' & Htie').
  destruct (Nat.eq_dec i' i) as [|Hne]; [assumption|]. exfalso.
  apply (lex_lt_asym (row_point row) (row_point row')).
  - apply (Htie i'); [assumption | assumption |].
    apply Hopt'. eapply nth_error_In; eassumption.
  - apply (Htie' i); [assumption | congruence |].
    apply Hopt. eapply nth_error_In; eassumption.
Qed.

(** C3: the index highlighted by [plot_energy_efficiency] is the first
    minimum of the per-point mean energy per instruction, the one marked by
    [plot_dvfs_efficiency_curve] is the first maximum of the per-point
    efficiency; the table is sorted by (voltage, frequency) whatever the
    order of the records, so that among the points that attain the optimum
    the earliest in tuple order is chosen, and no other index fits this
    description. *)
Theorem select_optimum_lex_earliest (results : list Entry) :
  match plot_energy_efficiency results with
  | Ok (rows, i) =>
      rows = energy_rows results (points_of results)
      /\ StronglySorted lex_lt (map row_point rows)
      /\ first_optimum Qle rows i
      /\ (forall i', first_optimum Qle rows i' -> i' = i)
  | Raise e =>
      e = ValueError /\ energy_rows results (points_of results) = []
  end
  /\ match plot_dvfs_efficiency_curve results with
     | Ok (rows, i) =>
         efficiency_rows results (points_of results) = Ok rows
         /\ StronglySorted lex_lt (map row_point rows)
         /\ first_optimum Qge rows i
         /\ (forall i', first_optimum Qge rows i' -> i' = i)
     | Raise e =>
         (e = ValueError
          /\ efficiency_rows results (points_of results) = Ok [])
         \/ (e = ZeroDivisionError
             /\ efficiency_rows results (points_of results)
                = Raise ZeroDivisionError)
     end.
Proof.
  pose proof (points_of_strict results) as Hpts. split.
  - unfold plot_energy_efficiency.
    pose proof (energy_rows_strict results _ Hpts) as Hs.
    destruct (energy_rows results (points_of results)) as [|row rows] eqn:E.
    + simpl. auto.
    + cbn [voltages map py_max bind].
      destruct (np_argmin (values (row :: rows))) as [i|e] eqn:Ea.
      * cbn [bind]. pose proof (first_min_optimum _ _ Hs Ea) as Hopt.
        repeat split; try assumption.
        intros i' Hi'. eapply first_optimum_unique; eassumption.
      * apply np_argmin_raises in Ea as [Ea _]. discriminate.
  - unfold plot_dvfs_efficiency_curve.
    destruct (efficiency_rows results (points_of results)) as [rows|e] eqn:E.
    + cbn [bind].
      pose proof (efficiency_rows_strict results _ Hpts rows E) as Hs.
      destruct (np_argmax (values rows)) as [i|e] eqn:Ea.
      * cbn [bind]. pose proof (first_max_optimum _ _ Hs Ea) as Hopt.
        repeat split; try assumption.
        intros i' Hi'. eapply first_optimum_unique; eassumption.
      * cbn [bind]. apply np_argmax_raises in Ea as [Ea ->].
        left. split; [reflexivity|].
        destruct rows; [reflexivity | discriminate].
    + cbn [bind]. right.
      pose proof (efficiency_rows_raises _ _ _ E) as ->. auto.
Qed.

(** On records that tie at the two lowest points and are listed out of
    table order, both plots select index 0, the point (0.6, 50). *)
Example tied_results_select_lowest_point :
  exists rows rows',
    plot_energy_efficiency tied_results = Ok (rows, 0%nat)
    /\ plot_dvfs_efficiency_curve tied_results = Ok (rows', 0%nat)
    /\ map row_point rows = [(6 # 10, 50); (7 # 10, 100); (8 # 10, 200)]
    /\ map row_point rows' = [(6 # 10, 50); (7 # 10, 100); (8 # 10, 200)].
Proof.
  do 2 eexists. split; [vm_compute; reflexivity|].
  split; [vm_compute; reflexivity|]. split; reflexivity.
Qed.

Lemma np_mean_spec (xs : list Q) :
  xs <> [] -> np_mean xs * inject_Z (Z.of_nat (List.length xs)) == np_sum xs.
Proof.
  intro Hne. unfold np_mean. field.
  destruct xs as [|x xs]; [congruence|].
  intro H. unfold Qeq in H. simpl in H. lia.
Qed.

Lemma active_results_filter (results : list Entry) (v f : Q) :
  active_results results v f
  = filter (fun r => at_point v f r && not_idle r) results.
Proof.
  unfold active_results, point_results.
  induction results as [|r results IH]; simpl; [reflexivity|].
  destruct (at_point v f r); simpl; [|assumption].
  destruct (not_idle r); rewrite IH; reflexivity.
Qed.

Lemma active_iff (v f : Q) (r : Entry) :
  at_point v f r && not_idle r = true <->
  voltage r == v /\ frequency r == f /\ workload r <> "idle_scenario"%string.
Proof.
  unfold at_point, not_idle.
  rewrite !andb_true_iff, !Qeq_bool_iff, negb_true_iff, String.eqb_neq.
  tauto.
Qed.

Lemma energy_rows_nil_iff (results : list Entry) :
  energy_rows results (points_of results) = []
  <-> forall r, In r results -> workload r = "idle_scenario"%string.
Proof.
  split.
  - intros Hnil r Hr.
    destruct (String.eqb_spec (workload r) "idle_scenario") as [|Hw];
      [assumption|].
    exfalso.
    destruct (points_of_complete results r Hr) as ([v f] & Hp & [Ev Ef]).
    simpl in Ev, Ef.
    assert (Hin : In r (active_results results v f)).
    { rewrite active_results_filter. apply filter_In.
      split; [assumption|]. apply active_iff. auto. }
    assert (Hrow : In (mkRow v f (np_mean (map epi_of
                                    (active_results results v f))))
                      (energy_rows results (points_of results))).
    { apply energy_rows_In. exists v, f. split; [assumption|].
      split; [|reflexivity]. intro Hn. rewrite Hn in Hin. destruct Hin. }
    rewrite Hnil in Hrow. destruct Hrow.
  - intro Hall.
    destruct (energy_rows results (points_of results)) as [|row rows] eqn:E;
      [reflexivity|].
    exfalso.
    assert (Hin : In row (energy_rows results (points_of results)))
      by (rewrite E; left; reflexivity).
    apply energy_rows_In in Hin as (v & f & _ & Hact & _).
    destruct (active_results results v f) as [|r act] eqn:Ea; [congruence|].
    assert (Hr : In r (active_results results v f))
      by (rewrite Ea; left; reflexivity).
    rewrite active_results_filter in Hr. apply filter_In in Hr as [Hr Hact'].
    apply active_iff in Hact' as (_ & _ & Hw). apply Hw, Hall, Hr.
Qed.

Lemma plot_energy_efficiency_table (results : list Entry) :
  match plot_energy_efficiency results with
  | Ok (rows, _) =>
      rows = energy_rows results (points_of results)
      /\ energy_rows results (points_of results) <> []
  | Raise e =>
      e = ValueError /\ energy_rows results (points_of results) = []
  end.
Proof.
  unfold plot_energy_efficiency.
  destruct (energy_rows results (points_of results)) as [|row rows].
  - simpl. auto.
  - cbn [voltages map py_max bind values np_argmin].
    split; [reflexivity | discriminate].
Qed.

(** C4, as stated, fails: in [idle_only_results] the point (0.6, 50) has an
    idle record only; no error is raised on its account, the function
    returns a table that simply has no row for that point. *)
Lemma idle_only_point_is_skipped :
  In (6 # 10, 50) (points_of idle_only_results)
  /\ active_results idle_only_results (6 # 10) 50 = []
  /\ plot_energy_efficiency idle_only_results
     = Ok ([mkRow (7 # 10) 100 (np_mean [5 # 10000])], 0%nat).
Proof.
  split; [vm_compute; auto|]. split; reflexivity.
Qed.

(** C4 (amended): every record's point is a point of the table; at each
    point the records averaged are exactly the records of [results] at
    that point whose workload is not "idle_scenario"; a point with such a
    record gets a row holding the arithmetic mean of their energy per
    instruction; a point without one gets no row, and no error is raised
    on its account.  The function fails only when no point at all gets a
    row, that is when every record is an idle one (or there is none):
    then [max(voltages)] (line 180) raises ValueError; otherwise it
    returns the table of the rows. *)
Theorem aggregate_mean_or_skip (results : list Entry) :
  let pts := points_of results in
  let rows := energy_rows results pts in
  (forall r, In r results ->
     exists p, In p pts /\ point_eq (voltage r, frequency r) p)
  /\ (forall v f,
        active_results results v f
        = filter (fun r => at_point v f r && not_idle r) results)
  /\ (forall v f r,
        at_point v f r && not_idle r = true <->
        voltage r == v /\ frequency r == f
        /\ workload r <> "idle_scenario"%string)
  /\ (forall v f,
        In (v, f) pts -> active_results results v f <> [] ->
        exists row,
          In row rows /\ row_point row = (v, f)
          /\ row_value row
             * inject_Z (Z.of_nat (List.length (active_results results v f)))
             == np_sum (map epi_of (active_results results v f)))
  /\ (forall v f,
        In (v, f) pts -> active_results results v f = [] ->
        forall row, In row rows -> row_point row <> (v, f))
  /\ (rows = []
      <-> forall r, In r results -> workload r = "idle_scenario"%string)
  /\ match plot_energy_efficiency results with
     | Ok (rows', _) => rows' = rows /\ rows <> []
     | Raise e => e = ValueError /\ rows = []
     end.
Proof.
  cbv zeta. split; [|split; [|split; [|split; [|split; [|split]]]]].
  - apply points_of_complete.
  - apply active_results_filter.
  - apply active_iff.
  - intros v f Hin Hne. eexists. split; [|split].
    + apply energy_rows_In. exists v, f. eauto.
    + reflexivity.
    + simpl. rewrite <- (length_map epi_of). apply np_mean_spec.
      destruct (active_results results v f); [congruence | discriminate].
  - intros v f Hin Hnil row Hrow Hpt.
    apply energy_rows_In in Hrow as (v' & f' & _ & Hne & ->).
    unfold row_point in Hpt. simpl in Hpt. injection Hpt as -> ->.
    congruence.
  - apply energy_rows_nil_iff.
  - apply plot_energy_efficiency_table.
Qed.

Lemma aggregate_mean_or_skip_witness :
  (exists row,
      In row (energy_rows mixed_results (points_of mixed_results))
      /\ row_point row = (7 # 10, 100)
      /\ row_value row * 2 == 1 # 1000)
  /\ (forall row,
        In row (energy_rows mixed_results (points_of mixed_results))
        -> row_point row <> (6 # 10, 50))
  /\ (exists i,
        plot_energy_efficiency mixed_results
        = Ok (energy_rows mixed_results (points_of mixed_results), i)).
Proof.
  pose proof (aggregate_mean_or_skip mixed_results) as H.
  cbv zeta in H. destruct H as (_ & _ & _ & Hrow & Hskip & _ & Hplot).
  split; [|split].
  - destruct (Hrow (7 # 10) 100) as (row & Hin & Hpt & Hval).
    + vm_compute. auto.
    + vm_compute. discriminate.
    + exists row. split; [assumption|]. split; [assumption|].
      change (row_value row * 2 == (4 # 10000) + ((6 # 10000) + 0)) in Hval.
      rewrite Hval. reflexivity.
  - apply (Hskip (6 # 10) 50).
    + vm_compute. auto.
    + reflexivity.
  - destruct (plot_energy_efficiency mixed_results) as [[rows i]|e].
    + destruct Hplot as [-> _]. exists i. reflexivity.
    + destruct Hplot as [_ Hnil]. vm_compute in Hnil. discriminate.
Defined.

(** *** The order of the records does not matter *)

Lemma lex_lt_eq_r (p q q' : point) :
  lex_lt p q -> point_eq q q' -> lex_lt p q'.
Proof.
  destruct p as [a b], q as [c d], q' as [e f].
  unfold lex_lt, point_eq. simpl. lra.
Qed.

Lemma lex_lt_not_eq (p q : point) : lex_lt p q -> point_eq p q -> False.
Proof.
  destruct p as [a b], q as [c d]. unfold lex_lt, point_eq. simpl. lra.
Qed.

(** Two strictly sorted lists that represent the same points coincide. *)
Lemma strict_sorted_unique (l : list point) :
  forall l' : list point,
    StronglySorted lex_lt l -> StronglySorted lex_lt l' ->
    (forall p, In p l -> exists q, In q l' /\ point_eq p q) ->
    (forall q, In q l' -> exists p, In p l /\ point_eq q p) ->
    Forall2 point_eq l l'.
Proof.
  induction l as [|a t IH]; intros [|b t'] Hs Hs' H12 H21.
  - constructor.
  - destruct (H21 b (or_introl eq_refl)) as (p & [] & _).
  - destruct (H12 a (or_introl eq_refl)) as (q & [] & _).
  - inversion Hs as [|? ? Hst Ha]; subst.
    inversion Hs' as [|? ? Hst' Hb]; subst.
    rewrite Forall_forall in Ha, Hb.
    assert (Hab : point_eq a b).
    { destruct (H12 a (or_introl eq_refl)) as (q & [<-|Hq] & Eq);
        [assumption|].
      destruct (H21 b (or_introl eq_refl)) as (p & [<-|Hp] & Ep);
        [apply point_eq_sym; assumption|].
      exfalso. apply (lex_lt_asym a b).
      - eapply lex_lt_eq_r; [apply Ha; eassumption|].
        apply point_eq_sym; assumption.
      - eapply lex_lt_eq_r; [apply Hb; eassumption|].
        apply point_eq_sym; assumption. }
    constructor; [assumption|].
    apply IH; try assumption.
    + intros p Hp. destruct (H12 p (or_intror Hp)) as (q & [<-|Hq] & Eq).
      * exfalso. apply (lex_lt_not_eq a p); [auto|].
        eapply point_eq_trans; [eassumption | apply point_eq_sym; assumption].
      * eauto.
    + intros q Hq. destruct (H21 q (or_intror Hq)) as (p & [<-|Hp] & Ep).
      * exfalso. apply (lex_lt_not_eq b q); [auto|].
        eapply point_eq_trans; apply point_eq_sym; eassumption.
      * eauto.
Qed.

Lemma points_of_perm (results results' : list Entry) :
  Permutation results results' ->
  Forall2 point_eq (points_of results) (points_of results').
Proof.
  intro Hp.
  assert (H : forall l l' : list Entry,
             Permutation l l' ->
             forall p, In p (points_of l) ->
                       exists q, In q (points_of l') /\ point_eq p q).
  { intros l l' Hll p Hin.
    apply points_of_In in Hin as (r & Hr & ->).
    apply points_of_complete. eapply Permutation_in; eassumption. }
  apply strict_sorted_unique; try apply points_of_strict.
  - apply H. assumption.
  - apply H. apply Permutation_sym. assumption.
Qed.

Lemma filter_perm {A : Type} (f : A -> bool) (l l' : list A) :
  Permutation l l' -> Permutation (filter f l) (filter f l').
Proof.
  induction 1 as [|x l l' _ IH|x y l|l l' l'' _ IH1 _ IH2]; simpl.
  - constructor.
  - destruct (f x); [constructor|]; assumption.
  - destruct (f x), (f y); try reflexivity. apply perm_swap.
  - etransitivity; eassumption.
Qed.

Lemma Qeq_bool_eq_r (x v v' : Q) : v == v' -> Qeq_bool x v = Qeq_bool x v'.
Proof.
  intro E. destruct (Qeq_bool x v') eqn:E'.
  - apply Qeq_bool_iff in E'. apply Qeq_bool_iff. rewrite E, E'. reflexivity.
  - apply not_true_iff_false. intro H. apply Qeq_bool_iff in H.
    apply not_true_iff_false in E'. apply E'. apply Qeq_bool_iff.
    rewrite H, E. reflexivity.
Qed.

Lemma active_results_compat (results : list Entry) (v f v' f' : Q) :
  v == v' -> f == f' ->
  active_results results v f = active_results results v' f'.
Proof.
  intros Ev Ef. unfold active_results, point_results. f_equal.
  apply filter_ext. intro r. unfold at_point.
  rewrite (Qeq_bool_eq_r _ _ _ Ev), (Qeq_bool_eq_r _ _ _ Ef). reflexivity.
Qed.

Lemma energy_rows_compat (results results' : list Entry)
    (pts pts' : list point) :
  (forall v f, active_results results v f = active_results results' v f) ->
  Forall2 point_eq pts pts' ->
  Forall2 row_equiv (energy_rows results pts) (energy_rows results' pts').
Proof.
  intro Hsame. induction 1 as [|[v f] [v' f'] pts pts' [Ev Ef] _ IH]; simpl.
  - constructor.
  - simpl in Ev, Ef.
    rewrite (Hsame v f), (active_results_compat results' v f v' f' Ev Ef).
    destruct (active_results results' v' f') as [|a act]; [assumption|].
    constructor; [|assumption].
    split; [assumption|]. split; [assumption|]. reflexivity.
Qed.

Lemma Qlt_bool_compat (x x' y y' : Q) :
  x == x' -> y == y' -> Qlt_bool x y = Qlt_bool x' y'.
Proof.
  intros Ex Ey. destruct (Qlt_bool x' y') eqn:E.
  - apply Qlt_bool_iff in E. apply Qlt_bool_iff. lra.
  - apply Qlt_bool_false_iff in E. apply Qlt_bool_false_iff. lra.
Qed.

Lemma argmin_from_compat (xs ys : list Q) :
  Forall2 Qeq xs ys ->
  forall (bi : nat) (b b' : Q) (i : nat),
    b == b' -> argmin_from bi b i xs = argmin_from bi b' i ys.
Proof.
  induction 1 as [|x y xs ys Exy _ IH]; intros bi b b' i Eb; simpl.
  - reflexivity.
  - rewrite (Qlt_bool_compat x y b b' Exy Eb).
    destruct (Qlt_bool y b'); apply IH; assumption.
Qed.

Lemma values_equiv (rows rows' : list Row) :
  Forall2 row_equiv rows rows' -> Forall2 Qeq (values rows) (values rows').
Proof.
  induction 1 as [|r r' rows rows' (_ & _ & Ev) _ IH]; simpl;
    constructor; assumption.
Qed.

(** X1: the table of mean energy per instruction and the point selected
    in it do not change when the records are listed in another order, as
    long as the records averaged at each point (the non-idle ones) keep
    their order among themselves: [np.mean] then adds the same numbers in
    the same order. *)
Lemma plot_energy_efficiency_perm (results results' : list Entry) :
  Permutation results results' ->
  (forall v f, active_results results v f = active_results results' v f) ->
  outcome_equiv (plot_energy_efficiency results)
                (plot_energy_efficiency results').
Proof.
  intros Hp Hsame. unfold plot_energy_efficiency.
  pose proof (energy_rows_compat _ _ _ _ Hsame (points_of_perm _ _ Hp)) as Hr.
  destruct Hr as [|r r' rows rows' Hrr Hrows]; simpl; [reflexivity|].
  split; [constructor; assumption|].
  apply argmin_from_compat; [apply values_equiv; assumption|].
  destruct Hrr as (_ & _ & Ev). exact Ev.
Qed.

Lemma find_filter {A : Type} (f : A -> bool) (l : list A) :
  find f l = hd_error (filter f l).
Proof.
  induction l as [|x l IH]; simpl; [reflexivity|].
  destruct (f x); [reflexivity | assumption].
Qed.

Lemma find_pointwise {A : Type} (f g : A -> bool) (l : list A) :
  (forall x, f x = g x) -> find f l = find g l.
Proof.
  intro H. induction l as [|x l IH]; simpl; [reflexivity|].
  rewrite H, IH. reflexivity.
Qed.

Lemma find_perm {A : Type} (f : A -> bool) (l l' : list A) :
  Permutation l l' -> (List.length (filter f l) <= 1)%nat ->
  find f l = find f l'.
Proof.
  intros Hp Hlen. rewrite !find_filter.
  pose proof (filter_perm f _ _ Hp) as Hf.
  destruct (filter f l) as [|x [|y t]]; simpl in Hlen; [| |lia].
  - apply Permutation_nil in Hf. rewrite Hf. reflexivity.
  - apply Permutation_length_1_inv in Hf. rewrite Hf. reflexivity.
Qed.

Lemma baseline_compat (v f v' f' : Q) (r : Entry) :
  v == v' -> f == f' -> baseline v f r = baseline v' f' r.
Proof.
  intros Ev Ef. unfold baseline, at_point.
  rewrite (Qeq_bool_eq_r _ _ _ Ev), (Qeq_bool_eq_r _ _ _ Ef). reflexivity.
Qed.

Lemma efficiency_rows_perm (results results' : list Entry)
    (pts pts' : list point) :
  Permutation results results' ->
  (forall v f, (List.length (filter (baseline v f) results) <= 1)%nat) ->
  Forall2 point_eq pts pts' ->
  match efficiency_rows results pts, efficiency_rows results' pts' with
  | Ok rows, Ok rows' => Forall2 row_equiv rows rows'
  | Raise e, Raise e' => e = e'
  | _, _ => False
  end.
Proof.
  intros Hp Huniq.
  induction 1 as [|[v f] [v' f'] pts pts' [Ev Ef] _ IH]; simpl.
  - constructor.
  - simpl in Ev, Ef.
    rewrite <- (find_pointwise (baseline v f) (baseline v' f') results')
      by (intro r; apply baseline_compat; assumption).
    rewrite <- (find_perm _ _ _ Hp (Huniq v f)).
    destruct (find (baseline v f) results) as [r|]; [|assumption].
    destruct (py_div _ _) as [q|e]; cbn [bind]; [|reflexivity].
    destruct (efficiency_rows results pts) as [rows|e],
             (efficiency_rows results' pts') as [rows'|e'];
      cbn [bind]; try assumption.
    constructor; [|assumption].
    split; [assumption|]. split; [assumption | reflexivity].
Qed.

Lemma argmax_from_compat (xs ys : list Q) :
  Forall2 Qeq xs ys ->
  forall (bi : nat) (b b' : Q) (i : nat),
    b == b' -> argmax_from bi b i xs = argmax_from bi b' i ys.
Proof.
  induction 1 as [|x y xs ys Exy _ IH]; intros bi b b' i Eb; simpl.
  - reflexivity.
  - rewrite (Qlt_bool_compat b b' x y Eb Exy).
    destruct (Qlt_bool b' y); apply IH; assumption.
Qed.

(** X2: the efficiency table and the point selected in it do not depend
    on the order of the records either, provided that no point has two
    records of the baseline workload ([next] keeps the first it meets). *)
Lemma plot_dvfs_efficiency_curve_perm (results results' : list Entry) :
  Permutation results results' ->
  (forall v f, (List.length (filter (baseline v f) results) <= 1)%nat) ->
  outcome_equiv (plot_dvfs_efficiency_curve results)
                (plot_dvfs_efficiency_curve results').
Proof.
  intros Hp Huniq. unfold plot_dvfs_efficiency_curve.
  pose proof (efficiency_rows_perm _ _ _ _ Hp Huniq (points_of_perm _ _ Hp))
    as Hr.
  destruct (efficiency_rows results (points_of results)) as [rows|e],
           (efficiency_rows results' (points_of results')) as [rows'|e'];
    cbn [bind]; try contradiction; [|exact Hr].
  destruct Hr as [|r r' rows rows' Hrr Hrows]; simpl; [reflexivity|].
  split; [constructor; assumption|].
  apply argmax_from_compat; [apply values_equiv; assumption|].
  destruct Hrr as (_ & _ & Ev). exact Ev.
Qed.

End AnalysisFacts.

(** * Further properties of the generator *)

Lemma py_div_ok (a b q : Q) :
  py_div a b = Ok q -> ~ b == 0 /\ q = a / b.
Proof.
  unfold py_div. destruct (Qeq_bool b 0) eqn:E; [discriminate|].
  intro H. injection H as <-. split; [|reflexivity].
  intro Hb. apply Qeq_bool_iff in Hb. congruence.
Qed.

Lemma py_div_nonzero (a b : Q) : ~ b == 0 -> py_div a b = Ok (a / b).
Proof.
  intro Hb. unfold py_div. destruct (Qeq_bool b 0) eqn:E; [|reflexivity].
  apply Qeq_bool_iff in E. contradiction.
Qed.

Lemma py_div_zero (a b : Q) : b == 0 -> py_div a b = Raise ZeroDivisionError.
Proof.
  intro Hb. unfold py_div. apply Qeq_bool_iff in Hb. rewrite Hb. reflexivity.
Qed.

(** The workload factor applied to the IPC. *)
Lemma base_ipc_cases (f : Q) (w : string) :
  exists k : Q,
    (k = 95 # 100 \/ k = 30 # 100 \/ k = 105 # 100 \/ k = 1)
    /\ Sample.base_ipc f w == ((65 # 100) + f / 800 * (20 # 100)) * k.
Proof.
  unfold Sample.base_ipc.
  destruct (String.eqb w "intensive_ecg_processing");
    [exists (95 # 100); split; [auto | reflexivity]|].
  destruct (String.eqb w "idle_scenario");
    [exists (30 # 100); split; [auto | reflexivity]|].
  destruct (String.eqb w "stress_test");
    [exists (105 # 100); split; [auto | reflexivity]|].
  exists 1. split; [auto 6 | ring].
Qed.

Lemma base_ipc_zero_iff (f : Q) (w : string) :
  Sample.base_ipc f w == 0 <-> f == - 2600.
Proof.
  destruct (base_ipc_cases f w) as (k & Hk & Hb). rewrite Hb.
  assert (E : (65 # 100) + f / 800 * (20 # 100) == (f + 2600) / 4000)
    by field.
  rewrite E.
  assert (Hk0 : 0 < k) by (destruct Hk as [-> | [-> | [-> | ->]]]; reflexivity).
  split; intro H.
  - assert (H1 : (f + 2600) / 4000 == 0).
    { apply Qmult_integral in H as [H|H]; [assumption|].
      rewrite H in Hk0. discriminate. }
    assert (H2 : (f + 2600) / 4000 * 4000 == f + 2600) by field.
    rewrite H1 in H2. lra.
  - rewrite H.
    assert (E0 : (- 2600 + 2600) / 4000 == 0) by reflexivity.
    rewrite E0. ring.
Qed.


(** The run of one (point, workload) pair, spelled out. *)
Lemma locals_closed (v f : Q) (w : string) :
  ~ f == 0 -> ~ f == - 2600 ->
  let i := Sample.base_ipc f w in
  let p := Sample.dynamic_power v f i + Sample.static_power v in
  let n := Sample.insts_of w in
  let s := inject_Z n / (f * 1000000 * i) in
  Sample.locals v f w =
  Ok (Sample.mkLocals i (Sample.dynamic_power v f i) (Sample.static_power v)
        p n s (p * s * 1000) (p * s * 1000 / inject_Z n)).
Proof.
  intros Hf Hf' i p n s. unfold Sample.locals. rewrite power_ok.
  cbn [bind]. unfold Sample.seconds_of.
  rewrite py_div_nonzero.
  - cbn [bind]. unfold Sample.energy. rewrite py_div_nonzero; [reflexivity|].
    pose proof (insts_of_pos w) as Hn. intro H.
    unfold Qeq in H. simpl in H. lia.
  - intro H. fold i in H.
    assert (Hi : ~ i == 0) by (unfold i; rewrite base_ipc_zero_iff; exact Hf').
    apply Qmult_integral in H as [H|H]; [|contradiction].
    apply Qmult_integral in H as [H|H]; [contradiction | discriminate].
Qed.

Lemma locals_raises (v f : Q) (w : string) :
  f == 0 \/ f == - 2600 -> Sample.locals v f w = Raise ZeroDivisionError.
Proof.
  intro H. unfold Sample.locals. rewrite power_ok. cbn [bind].
  unfold Sample.seconds_of. rewrite py_div_zero; [reflexivity|].
  destruct H as [H|H].
  - generalize (Sample.base_ipc f w). intro b. rewrite H. ring.
  - apply (base_ipc_zero_iff f w) in H. rewrite H. ring.
Qed.

Lemma locals_ok_inv (v f : Q) (w : string) (l : Sample.Locals) :
  Sample.locals v f w = Ok l -> ~ f == 0 /\ ~ f == - 2600.
Proof.
  intro H. split; intro Hf.
  - rewrite (locals_raises v f w (or_introl Hf)) in H. discriminate.
  - rewrite (locals_raises v f w (or_intror Hf)) in H. discriminate.
Qed.



(** X5: the energy per instruction of a run does not depend on its
    instruction count: it is the total power divided by
    [1000 * frequency * ipc]. *)
Theorem energy_per_inst_closed_form (v f : Q) (w : string)
    (l : Sample.Locals) :
  Sample.locals v f w = Ok l ->
  Sample.l_energy_per_inst l
  == Sample.l_avg_power l / (1000 * f * Sample.l_base_ipc l).
Proof.
  intro H. destruct (locals_ok_inv v f w l H) as [H0 H1].
  rewrite (locals_closed v f w H0 H1) in H. injection H as <-. cbn.
  pose proof (insts_of_pos w) as Hn.
  assert (Hi : ~ Sample.base_ipc f w == 0)
    by (rewrite base_ipc_zero_iff; exact H1).
  field. repeat split; try assumption.
  intro Hz. unfold Qeq in Hz. simpl in Hz. lia.
Qed.

Lemma energy_per_inst_closed_form_witness :
  exists l,
    Sample.locals (6 # 10) 50 "stress_test" = Ok l
    /\ Sample.l_energy_per_inst l
       == Sample.l_avg_power l / (1000 * 50 * Sample.l_base_ipc l).
Proof.
  eexists. split; [vm_compute; reflexivity|].
  apply (energy_per_inst_closed_form (6 # 10) 50 "stress_test").
  vm_compute. reflexivity.
Defined.

Lemma Qdiv_lt_anti (n d1 d2 : Q) :
  0 < n -> 0 < d1 -> d1 < d2 -> n / d2 < n / d1.
Proof.
  intros Hn Hd Hlt. apply Qlt_shift_div_r; [lra|].
  assert (Hq : 0 < n / d1) by (apply Qlt_shift_div_l; [assumption | lra]).
  assert (En : n == n / d1 * d1) by (field; lra).
  assert (Hp : 0 < n / d1 * (d2 - d1))
    by (apply Qmult_lt_0_compat; [assumption | lra]).
  nra.
Qed.

Lemma Qdiv_lt_mono (a b d : Q) : 0 < d -> a < b -> a / d < b / d.
Proof.
  intros Hd Hab. apply Qlt_shift_div_r; [assumption|].
  assert (E : b / d * d == b) by (field; lra). lra.
Qed.

(** The cycles per second retired at a frequency grow with the frequency. *)
Lemma throughput_grows (w : string) (f1 f2 : Q) :
  0 < f1 -> f1 < f2 ->
  0 < f1 * Sample.base_ipc f1 w
  /\ f1 * Sample.base_ipc f1 w < f2 * Sample.base_ipc f2 w.
Proof.
  intros H1 H2.
  unfold Sample.base_ipc.
  assert (E : forall f, (65 # 100) + f / 800 * (20 # 100)
                        == (65 # 100) + f * (1 # 4000))
    by (intro f; field).
  assert (Hsq : 0 <= (f2 - f1) * (f2 + f1)) by nra.
  destruct (String.eqb w "intensive_ecg_processing");
    [rewrite !E; split; nra|].
  destruct (String.eqb w "idle_scenario"); [rewrite !E; split; nra|].
  destruct (String.eqb w "stress_test"); rewrite !E; split; nra.
Qed.

(** X7: for one workload, a run at a higher (positive) frequency takes
    strictly less time; both runs return. *)
Theorem run_time_falls_with_frequency (v : Q) (w : string) (f1 f2 : Q) :
  0 < f1 -> f1 < f2 ->
  exists l1 l2,
    Sample.locals v f1 w = Ok l1 /\ Sample.locals v f2 w = Ok l2
    /\ Sample.l_sim_seconds l2 < Sample.l_sim_seconds l1.
Proof.
  intros H1 H2.
  rewrite (locals_closed v f1 w) by lra.
  rewrite (locals_closed v f2 w) by lra.
  do 2 eexists. split; [reflexivity|]. split; [reflexivity|]. cbn.
  destruct (throughput_grows w f1 f2 H1 H2) as [Hp Hlt].
  apply Qdiv_lt_anti.
  - pose proof (insts_of_pos w) as Hn. unfold Qlt. simpl. lia.
  - nra.
  - nra.
Qed.

Lemma run_time_falls_with_frequency_witness :
  exists l1 l2,
    Sample.locals (6 # 10) 50 "stress_test" = Ok l1
    /\ Sample.locals (6 # 10) 100 "stress_test" = Ok l2
    /\ Sample.l_sim_seconds l2 < Sample.l_sim_seconds l1.
Proof.
  apply (run_time_falls_with_frequency (6 # 10) "stress_test" 50 100);
    reflexivity.
Defined.

(** X8: at a fixed positive frequency, a higher (positive) voltage gives a
    strictly higher energy per instruction; at a fixed positive voltage, a
    higher frequency gives a strictly lower one. *)
Theorem energy_per_inst_tradeoff (w : string) (v1 v2 f1 f2 : Q) :
  0 < v1 -> v1 < v2 -> 0 < f1 -> f1 < f2 ->
  exists l l_v l_f,
    Sample.locals v1 f1 w = Ok l
    /\ Sample.locals v2 f1 w = Ok l_v
    /\ Sample.locals v1 f2 w = Ok l_f
    /\ Sample.l_energy_per_inst l < Sample.l_energy_per_inst l_v
    /\ Sample.l_energy_per_inst l_f < Sample.l_energy_per_inst l.
Proof.
  intros Hv1 Hv2 Hf1 Hf2.
  destruct (throughput_grows w f1 f2 Hf1 Hf2) as [Hp Hlt].
  assert (Hi1 : ~ Sample.base_ipc f1 w == 0) by nra.
  assert (Hi2 : ~ Sample.base_ipc f2 w == 0) by nra.
  assert (Hn : ~ inject_Z (Sample.insts_of w) == 0).
  { pose proof (insts_of_pos w). intro H0. unfold Qeq in H0.
    simpl in H0. lia. }
  destruct (Sample.locals v1 f1 w) as [l|] eqn:E;
    [|rewrite (locals_closed v1 f1 w) in E by lra; discriminate].
  destruct (Sample.locals v2 f1 w) as [l_v|] eqn:Ev;
    [|rewrite (locals_closed v2 f1 w) in Ev by lra; discriminate].
  destruct (Sample.locals v1 f2 w) as [l_f|] eqn:Ef;
    [|rewrite (locals_closed v1 f2 w) in Ef by lra; discriminate].
  exists l, l_v, l_f. do 3 (split; [reflexivity|]).
  rewrite (locals_closed v1 f1 w) in E by lra.
  rewrite (locals_closed v2 f1 w) in Ev by lra.
  rewrite (locals_closed v1 f2 w) in Ef by lra.
  injection E as <-. injection Ev as <-. injection Ef as <-. cbn.
  unfold Sample.dynamic_power, Sample.static_power.
  set (i1 := Sample.base_ipc f1 w) in *.
  set (i2 := Sample.base_ipc f2 w) in *.
  set (n := inject_Z (Sample.insts_of w)) in *.
  assert (E1 : forall v f i, ~ f == 0 -> ~ i == 0 ->
             (v ^ 2 * f * i + v * 5) * (n / (f * 1000000 * i)) * 1000 / n
             == v * v / 1000 + v / (200 * (f * i))).
  { intros v f i Hf Hi. field. repeat split; assumption. }
  rewrite !E1 by (assumption || lra).
  assert (Hd : forall a b d, 0 < d -> a < b -> a / d < b / d)
    by (intros; apply Qdiv_lt_mono; assumption).
  split.
  - assert (Hq : v1 / (200 * (f1 * i1)) < v2 / (200 * (f1 * i1)))
      by (apply Hd; lra).
    assert (Hs : v1 * v1 < v2 * v2) by nra.
    assert (Hs' : v1 * v1 / 1000 < v2 * v2 / 1000) by (apply Hd; lra).
    lra.
  - assert (Hq : v1 / (200 * (f2 * i2)) < v1 / (200 * (f1 * i1)))
      by (apply Qdiv_lt_anti; lra).
    lra.
Qed.

Lemma energy_per_inst_tradeoff_witness :
  exists l l_v l_f,
    Sample.locals (6 # 10) 50 "mixed_workload" = Ok l
    /\ Sample.locals (7 # 10) 50 "mixed_workload" = Ok l_v
    /\ Sample.locals (6 # 10) 100 "mixed_workload" = Ok l_f
    /\ Sample.l_energy_per_inst l < Sample.l_energy_per_inst l_v
    /\ Sample.l_energy_per_inst l_f < Sample.l_energy_per_inst l.
Proof.
  apply (energy_per_inst_tradeoff "mixed_workload" (6 # 10) (7 # 10) 50 100);
    reflexivity.
Defined.

(** X9: over the range of the DVFS table (0 to 800 MHz) the IPC of every
    workload lies strictly between 0.19 and 0.9, below one instruction per
    cycle. *)
Theorem base_ipc_range (f : Q) (w : string) :
  0 <= f -> f <= 800 ->
  (19 # 100) < Sample.base_ipc f w /\ Sample.base_ipc f w < (9 # 10).
Proof.
  intros H0 H1. destruct (base_ipc_cases f w) as (k & Hk & Hb). rewrite Hb.
  assert (E : (65 # 100) + f / 800 * (20 # 100) == (65 # 100) + f * (1 # 4000))
    by field.
  rewrite E.
  destruct Hk as [-> | [-> | [-> | ->]]]; split; lra.
Qed.

Lemma base_ipc_range_witness :
  (19 # 100) < Sample.base_ipc 800 "stress_test"
  /\ Sample.base_ipc 800 "stress_test" < (9 # 10).
Proof.
  apply (base_ipc_range 800 "stress_test"); unfold Qle; simpl; lia.
Defined.

(** ** Rounding *)

Lemma round_half_even_near (q : Q) :
  q - (1 # 2) <= inject_Z (round_half_even q)
  /\ inject_Z (round_half_even q) <= q + (1 # 2).
Proof.
  unfold round_half_even.
  pose proof (Qfloor_le q) as Hlo. pose proof (Qlt_floor q) as Hhi.
  rewrite inject_Z_plus in Hhi.
  change (inject_Z 1) with 1 in Hhi.
  destruct (Qcompare (q - inject_Z (Qfloor q)) (1 # 2)) eqn:C.
  - apply Qeq_alt in C.
    destruct (Z.even (Qfloor q)); rewrite ?inject_Z_plus;
      change (inject_Z 1) with 1; split; lra.
  - apply Qlt_alt in C. split; lra.
  - apply Qgt_alt in C. rewrite inject_Z_plus.
    change (inject_Z 1) with 1. split; lra.
Qed.

Lemma round_half_even_ge (q : Q) (a : Z) :
  inject_Z a <= q -> (a <= round_half_even q)%Z.
Proof.
  intro H. apply Qfloor_resp_le in H. rewrite Qfloor_Z in H.
  unfold round_half_even.
  destruct (Qcompare _ _); [destruct (Z.even _)| |]; lia.
Qed.

Lemma round_half_even_le (q : Q) (b : Z) :
  q <= inject_Z b -> (round_half_even q <= b)%Z.
Proof.
  intro H. pose proof (Qfloor_le q) as Hlo.
  pose proof (Qfloor_resp_le _ _ H) as Hf. rewrite Qfloor_Z in Hf.
  unfold round_half_even.
  destruct (Z.eq_dec (Qfloor q) b) as [E|E].
  - assert (C : Qcompare (q - inject_Z (Qfloor q)) (1 # 2) = Lt).
    { apply -> Qlt_alt. rewrite E in *. lra. }
    rewrite C. lia.
  - destruct (Qcompare _ _); [destruct (Z.even _)| |]; lia.
Qed.

Lemma scale_pos (n : nat) : 0 < inject_Z (10 ^ Z.of_nat n).
Proof.
  assert (0 < 10 ^ Z.of_nat n)%Z by (apply Z.pow_pos_nonneg; lia).
  unfold Qlt. simpl. lia.
Qed.

Lemma Qdiv_le_mono (a b d : Q) : 0 < d -> a <= b -> a / d <= b / d.
Proof.
  intros Hd Hab. apply Qle_shift_div_r; [assumption|].
  assert (E : b / d * d == b) by (field; lra). lra.
Qed.

(** [round(x, n)] moves [x] by at most half a unit of the last place. *)
Lemma py_round_near (x : Q) (n : nat) : near n (py_round x n) x.
Proof.
  unfold near, py_round, half_ulp.
  pose proof (scale_pos n) as Hs.
  set (s := inject_Z (10 ^ Z.of_nat n)) in *.
  destruct (round_half_even_near (x * s)) as [Hlo Hhi].
  assert (E1 : x - (1 # 2) / s == (x * s - (1 # 2)) / s) by (field; lra).
  assert (E2 : x + (1 # 2) / s == (x * s + (1 # 2)) / s) by (field; lra).
  rewrite E1, E2. split; apply Qdiv_le_mono; assumption.
Qed.

(** [round(x, n)] does not leave an interval whose ends have [n] decimals. *)
Lemma py_round_between (x : Q) (n : nat) (a b : Z) :
  let s := inject_Z (10 ^ Z.of_nat n) in
  inject_Z a / s <= x -> x <= inject_Z b / s ->
  inject_Z a / s <= py_round x n /\ py_round x n <= inject_Z b / s.
Proof.
  intros s Ha Hb. pose proof (scale_pos n) as Hs. fold s in Hs.
  unfold py_round. fold s.
  assert (Ha' : inject_Z a <= x * s).
  { assert (E : inject_Z a / s * s == inject_Z a) by (field; lra).
    rewrite <- E. apply Qmult_le_compat_r; lra. }
  assert (Hb' : x * s <= inject_Z b).
  { assert (E : inject_Z b / s * s == inject_Z b) by (field; lra).
    rewrite <- E. apply Qmult_le_compat_r; lra. }
  apply round_half_even_ge in Ha'. apply round_half_even_le in Hb'.
  split; apply Qdiv_le_mono; try assumption; rewrite <- Zle_Qle; assumption.
Qed.

(** X10: a record stores its key and its instruction count unchanged and
    every other metric to within half a unit of its last stored decimal of
    the computed value; building it fails only on a zero IPC. *)
Theorem entry_of_accuracy (v f : Q) (w : string) (l : Sample.Locals)
    (icache_hit dcache_hit : Q) :
  match Sample.entry_of v f w l icache_hit dcache_hit with
  | Ok e =>
      voltage e = v /\ frequency e = f /\ workload e = w
      /\ sim_insts (metrics e) = Sample.l_sim_insts l
      /\ near 3 (ipc (metrics e)) (Sample.l_base_ipc l)
      /\ near 3 (cpi (metrics e)) (1 / Sample.l_base_ipc l)
      /\ near 1 (avg_power (metrics e)) (Sample.l_avg_power l)
      /\ near 1 (peak_power (metrics e)) (Sample.l_avg_power l * (13 # 10))
      /\ near 2 (total_energy (metrics e)) (Sample.l_total_energy l)
      /\ near 4 (energy_per_inst (metrics e)) (Sample.l_energy_per_inst l)
      /\ near 6 (sim_seconds (metrics e)) (Sample.l_sim_seconds l)
      /\ near 4 (icache_hit_rate (metrics e)) icache_hit
      /\ near 4 (dcache_hit_rate (metrics e)) dcache_hit
  | Raise x => x = ZeroDivisionError /\ Sample.l_base_ipc l == 0
  end.
Proof.
  unfold Sample.entry_of, py_div.
  destruct (Qeq_bool (Sample.l_base_ipc l) 0) eqn:E; cbn [bind].
  - apply Qeq_bool_iff in E. auto.
  - cbn. repeat split; try reflexivity; apply py_round_near.
Qed.

(** ** The random draws of the generator *)

Lemma body_hits (v f : Q) (w : string) (st st' : RandomState) (e : Entry) :
  Sample.body v f w st = Ok (e, st') ->
  draws st' = draws st /\ pos st' = (pos st + 2)%nat /\ hits_from st 0 e.
Proof.
  unfold Sample.body.
  destruct (Sample.locals v f w) as [l|]; cbn [bind]; [|discriminate].
  unfold uniform, random_sample, Sample.entry_of.
  destruct (py_div 1 (Sample.l_base_ipc l)) as [q|]; cbn [bind];
    [|discriminate].
  intro H. injection H as <- <-. unfold hits_from.
  cbn [pos draws metrics icache_hit_rate dcache_hit_rate].
  replace (pos st + 2 * 0)%nat with (pos st) by lia.
  replace (pos st + 1)%nat with (S (pos st)) by lia.
  split; [reflexivity|]. split; [lia|]. split; reflexivity.
Qed.

Lemma inner_hits (v f : Q) (ws : list string) :
  forall (acc res : list Entry) (st st' : RandomState),
    Sample.inner v f ws acc st = Ok (res, st') ->
    exists new,
      res = acc ++ new
      /\ List.length new = List.length ws
      /\ draws st' = draws st
      /\ pos st' = (pos st + 2 * List.length ws)%nat
      /\ forall k e, nth_error new k = Some e -> hits_from st k e.
Proof.
  induction ws as [|w ws IH]; intros acc res st st' H; simpl in H.
  - injection H as <- <-. exists []. rewrite app_nil_r.
    do 4 (split; [simpl; reflexivity || lia|]).
    intros [|k] e Hk; discriminate.
  - destruct (Sample.body v f w st) as [[e st1]|] eqn:Eb; cbn [bind] in H;
      [|discriminate].
    apply body_hits in Eb as (Hd & Hp & Hh).
    apply IH in H as (new & -> & Hlen & Hd' & Hp' & Hk).
    exists (e :: new). rewrite <- app_assoc. simpl.
    split; [reflexivity|]. split; [lia|]. split; [congruence|].
    split; [lia|].
    intros [|k] e' He'; simpl in He'.
    + injection He' as <-. exact Hh.
    + specialize (Hk k e' He'). unfold hits_from in *.
      rewrite Hd, Hp in Hk.
      replace (pos st + 2 * S k)%nat with (pos st + 2 + 2 * k)%nat by lia.
      exact Hk.
Qed.

Lemma outer_hits (ws : list string) (points : list (Q * Q)) :
  forall (acc res : list Entry) (st st' : RandomState),
    Sample.outer points ws acc st = Ok (res, st') ->
    exists new,
      res = acc ++ new
      /\ List.length new = (List.length points * List.length ws)%nat
      /\ draws st' = draws st
      /\ pos st' = (pos st + 2 * List.length new)%nat
      /\ forall k e, nth_error new k = Some e -> hits_from st k e.
Proof.
  induction points as [|[v f] points IH]; intros acc res st st' H;
    simpl in H.
  - injection H as <- <-. exists []. rewrite app_nil_r.
    do 4 (split; [simpl; reflexivity || lia|]).
    intros [|k] e Hk; discriminate.
  - destruct (Sample.inner v f ws acc st) as [[res1 st1]|] eqn:Ei;
      cbn [bind] in H; [|discriminate].
    apply inner_hits in Ei as (new1 & -> & Hlen1 & Hd1 & Hp1 & Hk1).
    apply IH in H as (new2 & -> & Hlen2 & Hd2 & Hp2 & Hk2).
    exists (new1 ++ new2). rewrite <- app_assoc.
    split; [reflexivity|].
    split; [rewrite length_app; simpl; lia|].
    split; [congruence|].
    split; [rewrite length_app; lia|].
    intros k e He.
    destruct (Nat.lt_ge_cases k (List.length new1)) as [Hlt|Hge].
    + rewrite nth_error_app1 in He by assumption. auto.
    + rewrite nth_error_app2 in He by assumption.
      specialize (Hk2 _ _ He). unfold hits_from in *.
      rewrite Hd1, Hp1 in Hk2.
      replace (pos st + 2 * k)%nat
        with (pos st + 2 * List.length ws
              + 2 * (k - List.length new1))%nat by lia.
      exact Hk2.
Qed.

Lemma generate_unfold (st : RandomState) :
  Sample.generate_sample_dvfs_data st
  = Sample.outer Sample.dvfs_points Sample.workloads [] st.
Proof. reflexivity. Qed.

Lemma icache_of_range (u : Q) :
  0 <= u -> u < 1 ->
  (935 # 1000) <= icache_of u /\ icache_of u <= (955 # 1000).
Proof.
  intros H0 H1. unfold icache_of.
  destruct (py_round_between
              ((945 # 1000) + (- (1 # 100) + ((1 # 100) - - (1 # 100)) * u))
              4 9350 9550) as [Hlo Hhi].
  - assert (E : inject_Z 9350 / inject_Z (10 ^ Z.of_nat 4) == 935 # 1000)
      by reflexivity.
    rewrite E. lra.
  - assert (E : inject_Z 9550 / inject_Z (10 ^ Z.of_nat 4) == 955 # 1000)
      by reflexivity.
    rewrite E. lra.
  - assert (E1 : inject_Z 9350 / inject_Z (10 ^ Z.of_nat 4) == 935 # 1000)
      by reflexivity.
    assert (E2 : inject_Z 9550 / inject_Z (10 ^ Z.of_nat 4) == 955 # 1000)
      by reflexivity.
    rewrite E1 in Hlo. rewrite E2 in Hhi. split; assumption.
Qed.

Lemma dcache_of_range (u : Q) :
  0 <= u -> u < 1 ->
  (945 # 1000) <= dcache_of u /\ dcache_of u <= (965 # 1000).
Proof.
  intros H0 H1. unfold dcache_of.
  destruct (py_round_between
              ((955 # 1000) + (- (1 # 100) + ((1 # 100) - - (1 # 100)) * u))
              4 9450 9650) as [Hlo Hhi].
  - assert (E : inject_Z 9450 / inject_Z (10 ^ Z.of_nat 4) == 945 # 1000)
      by reflexivity.
    rewrite E. lra.
  - assert (E : inject_Z 9650 / inject_Z (10 ^ Z.of_nat 4) == 965 # 1000)
      by reflexivity.
    rewrite E. lra.
  - assert (E1 : inject_Z 9450 / inject_Z (10 ^ Z.of_nat 4) == 945 # 1000)
      by reflexivity.
    assert (E2 : inject_Z 9650 / inject_Z (10 ^ Z.of_nat 4) == 965 # 1000)
      by reflexivity.
    rewrite E1 in Hlo. rewrite E2 in Hhi. split; assumption.
Qed.

(** X11: the generator reads exactly 72 unit variates, two per record in
    the order of the records: record [k] stores the rounded hit rates made
    from draws [2k] and [2k+1] after the current position.  When the draws
    lie in [0, 1), every instruction-cache hit rate lies in [0.935, 0.955]
    and every data-cache hit rate in [0.945, 0.965]. *)
Theorem generator_hit_rates (st : RandomState) :
  exists (results : list Entry) (st' : RandomState),
    Sample.generate_sample_dvfs_data st = Ok (results, st')
    /\ draws st' = draws st
    /\ pos st' = (pos st + 72)%nat
    /\ (forall k e, nth_error results k = Some e ->
          icache_hit_rate (metrics e)
          = icache_of (draws st (pos st + 2 * k)%nat)
          /\ dcache_hit_rate (metrics e)
             = dcache_of (draws st (pos st + 2 * k + 1)%nat))
    /\ ((forall j, 0 <= draws st j /\ draws st j < 1) ->
        Forall (fun e =>
                  ((935 # 1000) <= icache_hit_rate (metrics e)
                   /\ icache_hit_rate (metrics e) <= (955 # 1000))
                  /\ ((945 # 1000) <= dcache_hit_rate (metrics e)
                      /\ dcache_hit_rate (metrics e) <= (965 # 1000)))
               results).
Proof.
  destruct (generate_det st) as (res & st' & ds & E & _ & _).
  exists res, st'. split; [exact E|].
  rewrite generate_unfold in E.
  apply outer_hits in E as (new & Hres & Hlen & Hd & Hp & Hk).
  rewrite app_nil_l in Hres. subst res.
  assert (Hl : List.length new = 36%nat) by exact Hlen.
  split; [exact Hd|]. split; [rewrite Hp, Hl; reflexivity|].
  split; [exact Hk|].
  intro Hdraws. apply Forall_forall. intros e He.
  apply In_nth_error in He as (k & He).
  destruct (Hk k e He) as [-> ->].
  split; [apply icache_of_range | apply dcache_of_range]; apply Hdraws.
Qed.

Lemma generator_hit_rates_witness :
  exists (results : list Entry) (st' : RandomState),
    Sample.generate_sample_dvfs_data st_mid = Ok (results, st')
    /\ pos st' = 72%nat
    /\ Forall (fun e =>
                 ((935 # 1000) <= icache_hit_rate (metrics e)
                  /\ icache_hit_rate (metrics e) <= (955 # 1000))
                 /\ ((945 # 1000) <= dcache_hit_rate (metrics e)
                     /\ dcache_hit_rate (metrics e) <= (965 # 1000)))
              results.
Proof.
  destruct (generator_hit_rates st_mid)
    as (res & st' & E & _ & Hp & _ & Hrange).
  exists res, st'. split; [exact E|]. split; [exact Hp|].
  apply Hrange. intro j. simpl. split; [discriminate | reflexivity].
Defined.

(** ** The runs of the generator *)

Lemma body_origin (v f : Q) (w : string) (st st' : RandomState) (e : Entry) :
  Sample.body v f w st = Ok (e, st') ->
  exists l icache_hit dcache_hit,
    Sample.locals v f w = Ok l
    /\ Sample.entry_of v f w l icache_hit dcache_hit = Ok e.
Proof.
  unfold Sample.body.
  destruct (Sample.locals v f w) as [l|]; cbn [bind]; [|discriminate].
  unfold uniform, random_sample.
  match goal with
  | |- context [Sample.entry_of v f w l ?i ?d] =>
      destruct (Sample.entry_of v f w l i d) as [e0|] eqn:E; cbn [bind];
      [|discriminate]; intro H; injection H as <- <-; exists l, i, d; auto
  end.
Qed.

Lemma inner_Forall (P : Entry -> Prop) (v f : Q) (ws : list string) :
  (forall w st e st',
      In w ws -> Sample.body v f w st = Ok (e, st') -> P e) ->
  forall (acc res : list Entry) (st st' : RandomState),
    Forall P acc -> Sample.inner v f ws acc st = Ok (res, st') ->
    Forall P res.
Proof.
  induction ws as [|w ws IH]; intros HP acc res st st' Hacc H; simpl in H.
  - injection H as <- <-. assumption.
  - destruct (Sample.body v f w st) as [[e st1]|] eqn:Eb; cbn [bind] in H;
      [|discriminate].
    apply IH in H; [assumption| |].
    + intros w' s e' s' Hw' Hb. apply (HP w' s e' s'); [right|]; assumption.
    + apply Forall_app. split; [assumption|].
      constructor; [|constructor].
      apply (HP w st e st1); [left; reflexivity | assumption].
Qed.

Lemma outer_Forall (P : Entry -> Prop) (ws : list string)
    (points : list (Q * Q)) :
  (forall v f w st e st',
      In (v, f) points -> In w ws ->
      Sample.body v f w st = Ok (e, st') -> P e) ->
  forall (acc res : list Entry) (st st' : RandomState),
    Forall P acc -> Sample.outer points ws acc st = Ok (res, st') ->
    Forall P res.
Proof.
  induction points as [|[v f] points IH]; intros HP acc res st st' Hacc H;
    simpl in H.
  - injection H as <- <-. assumption.
  - destruct (Sample.inner v f ws acc st) as [[res1 st1]|] eqn:Ei;
      cbn [bind] in H; [|discriminate].
    apply IH in H; [assumption| |].
    + intros v' f' w s e s' Hp Hw Hb.
      apply (HP v' f' w s e s'); [right| |]; assumption.
    + apply (inner_Forall P v f ws) in Ei; [assumption| |assumption].
      intros w s e s' Hw Hb.
      apply (HP v f w s e s'); [left; reflexivity| |]; assumption.
Qed.

(** What holds of every run of the loop body at the operating points and
    workloads of the generator holds of every record it returns. *)
Lemma generate_Forall (P : Entry -> Prop) :
  (forall v f w l icache_hit dcache_hit e,
      In (v, f) Sample.dvfs_points -> In w Sample.workloads ->
      Sample.locals v f w = Ok l ->
      Sample.entry_of v f w l icache_hit dcache_hit = Ok e -> P e) ->
  forall st : RandomState,
  exists (results : list Entry) (st' : RandomState),
    Sample.generate_sample_dvfs_data st = Ok (results, st')
    /\ Forall P results.
Proof.
  intros HP st. destruct (generate_det st) as (res & st' & ds & E & _ & _).
  exists res, st'. split; [exact E|].
  rewrite generate_unfold in E.
  apply (outer_Forall P) in E; [assumption| |constructor].
  intros v f w s e s' Hp Hw Hb.
  apply body_origin in Hb as (l & ih & dh & Hl & He).
  apply (HP v f w l ih dh e); assumption.
Qed.

Lemma entry_of_key (v f : Q) (w : string) (l : Sample.Locals)
    (icache_hit dcache_hit : Q) (e : Entry) :
  Sample.entry_of v f w l icache_hit dcache_hit = Ok e ->
  voltage e = v /\ frequency e = f /\ workload e = w
  /\ sim_insts (metrics e) = Sample.l_sim_insts l
  /\ avg_power (metrics e) = py_round (Sample.l_avg_power l) 1
  /\ sim_seconds (metrics e) = py_round (Sample.l_sim_seconds l) 6
  /\ total_energy (metrics e) = py_round (Sample.l_total_energy l) 2
  /\ energy_per_inst (metrics e) = py_round (Sample.l_energy_per_inst l) 4.
Proof.
  unfold Sample.entry_of.
  destruct (py_div 1 (Sample.l_base_ipc l)) as [q|]; cbn [bind];
    [|discriminate].
  intro H. injection H as <-. cbn. repeat split; reflexivity.
Qed.


Lemma insts_of_cases (w : string) :
  In (Sample.insts_of w) [500000; 50000; 200000]%Z.
Proof.
  unfold Sample.insts_of.
  destruct (String.eqb w "stress_test"); [simpl; auto|].
  destruct (String.eqb w "idle_scenario"); simpl; auto.
Qed.

(** C5, as stated, fails: in the first record that the generator returns
    (0.6 V, 50 MHz, healthcare_monitor_test) the stored total energy is
    90.11, the stored power 14.9 and the stored time 0.006038: the energy is
    not the product of power and time (0.0899662), nor, the fields being
    rounded one by one, exactly 1000 times that product (89.9662). *)
Lemma energy_is_scaled :
  exists (results : list Entry) (st' : RandomState) (e : Entry),
    Sample.generate_sample_dvfs_data st_mid = Ok (results, st')
    /\ nth_error results 0 = Some e
    /\ total_energy (metrics e) == 9011 # 100
    /\ avg_power (metrics e) == 149 # 10
    /\ sim_seconds (metrics e) == 6038 # 1000000
    /\ ~ total_energy (metrics e)
         == avg_power (metrics e) * sim_seconds (metrics e)
    /\ ~ total_energy (metrics e)
         == avg_power (metrics e) * sim_seconds (metrics e) * 1000.
Proof.
  destruct (Sample.generate_sample_dvfs_data st_mid) as [[res st']|] eqn:E;
    [|vm_compute in E; discriminate].
  vm_compute in E. injection E as <- <-.
  do 3 eexists. split; [reflexivity|]. split; [reflexivity|].
  repeat split; try reflexivity; vm_compute; discriminate.
Qed.

(** C5 (amended): in every run of the generator the computed total energy
    is avg_power * sim_seconds * 1000 (mW and s give uJ) and the computed
    energy per instruction is total_energy / sim_insts, where sim_insts is
    one of the positive constants 500000, 50000 and 200000, so that the
    division does not raise.  The record stores the instruction count as
    it is and each of the other values rounded on its own (avg_power to 1
    decimal, sim_seconds to 6, total_energy to 2, energy_per_inst to 4),
    within half a unit of its last decimal of the computed value. *)
Theorem energy_formula (st : RandomState) :
  exists (results : list Entry) (st' : RandomState),
    Sample.generate_sample_dvfs_data st = Ok (results, st')
    /\ Forall
         (fun e =>
            exists l,
              Sample.locals (voltage e) (frequency e) (workload e) = Ok l
              /\ Sample.l_total_energy l
                 == Sample.l_avg_power l * Sample.l_sim_seconds l * 1000
              /\ Sample.l_energy_per_inst l
                 == Sample.l_total_energy l
                    / inject_Z (Sample.l_sim_insts l)
              /\ In (Sample.l_sim_insts l) [500000; 50000; 200000]%Z
              /\ sim_insts (metrics e) = Sample.l_sim_insts l
              /\ near 1 (avg_power (metrics e)) (Sample.l_avg_power l)
              /\ near 6 (sim_seconds (metrics e)) (Sample.l_sim_seconds l)
              /\ near 2 (total_energy (metrics e)) (Sample.l_total_energy l)
              /\ near 4 (energy_per_inst (metrics e))
                        (Sample.l_energy_per_inst l))
         results.
Proof.
  apply generate_Forall.
  intros v f w l ih dh e _ _ Hl He.
  apply entry_of_key in He
    as (-> & -> & -> & Hn & Hp & Hs & Ht & Hepi).
  exists l. split; [exact Hl|].
  destruct (locals_ok_inv v f w l Hl) as [H0 H1].
  rewrite (locals_closed v f w H0 H1) in Hl. injection Hl as <-.
  cbn in *. rewrite Hp, Hs, Ht, Hepi.
  split; [reflexivity|]. split; [reflexivity|].
  split; [apply insts_of_cases|]. split; [exact Hn|].
  repeat split; apply py_round_near.
Qed.

(** * Sets and sorting of workload labels *)

Lemma ascii_compare_refl (a : ascii) : Ascii.compare a a = Eq.
Proof. unfold Ascii.compare. apply N.compare_refl. Qed.

Lemma ascii_compare_lt_trans (a b c : ascii) :
  Ascii.compare a b = Lt -> Ascii.compare b c = Lt -> Ascii.compare a c = Lt.
Proof.
  unfold Ascii.compare. rewrite !N.compare_lt_iff. apply N.lt_trans.
Qed.

Lemma str_compare_refl (s : string) : String.compare s s = Eq.
Proof.
  induction s as [|a s IH]; simpl; [reflexivity|].
  rewrite ascii_compare_refl. assumption.
Qed.

Lemma str_compare_lt_trans (s1 : string) :
  forall s2 s3 : string,
    String.compare s1 s2 = Lt -> String.compare s2 s3 = Lt ->
    String.compare s1 s3 = Lt.
Proof.
  induction s1 as [|a s1 IH]; intros [|b s2] [|c s3]; simpl;
    try discriminate; try reflexivity.
  destruct (Ascii.compare a b) eqn:Eab; try discriminate;
    destruct (Ascii.compare b c) eqn:Ebc; try discriminate; intros H1 H2.
  - apply Ascii.compare_eq_iff in Eab, Ebc. subst.
    rewrite ascii_compare_refl. eapply IH; eassumption.
  - apply Ascii.compare_eq_iff in Eab. subst. rewrite Ebc. reflexivity.
  - apply Ascii.compare_eq_iff in Ebc. subst. rewrite Eab. reflexivity.
  - rewrite (ascii_compare_lt_trans _ _ _ Eab Ebc). reflexivity.
Qed.

Lemma str_lt_iff (a b : string) : str_lt a b <-> String.compare a b = Lt.
Proof.
  unfold str_lt, String.ltb.
  destruct (String.compare a b); split; congruence.
Qed.

Lemma str_lt_trans (a b c : string) : str_lt a b -> str_lt b c -> str_lt a c.
Proof. rewrite !str_lt_iff. apply str_compare_lt_trans. Qed.

Lemma str_lt_irrefl (a : string) : ~ str_lt a a.
Proof. rewrite str_lt_iff, str_compare_refl. discriminate. Qed.

Lemma str_total (u w : string) :
  String.ltb u w = false -> u <> w -> str_lt w u.
Proof.
  intros H Hne. apply str_lt_iff. unfold String.ltb in H.
  rewrite String.compare_antisym.
  destruct (String.compare u w) eqn:E; try discriminate; [|reflexivity].
  apply String.compare_eq_iff in E. contradiction.
Qed.

Lemma str_set_In (xs : list string) (w : string) :
  In w (str_set xs) <-> In w xs.
Proof.
  induction xs as [|x xs IH]; simpl; [reflexivity|].
  destruct (existsb (String.eqb x) xs) eqn:E; simpl; rewrite IH.
  - split; [auto|]. intros [<-|H]; [|assumption].
    apply existsb_exists in E as (y & Hy & Exy).
    apply String.eqb_eq in Exy. subst. assumption.
  - reflexivity.
Qed.

Lemma str_set_NoDup (xs : list string) : NoDup (str_set xs).
Proof.
  induction xs as [|x xs IH]; simpl; [constructor|].
  destruct (existsb (String.eqb x) xs) eqn:E; [assumption|].
  constructor; [|assumption]. rewrite str_set_In. intro Hin.
  assert (existsb (String.eqb x) xs = true).
  { apply existsb_exists. exists x. split; [assumption|].
    apply String.eqb_refl. }
  congruence.
Qed.

Lemma str_insert_In (w x : string) (l : list string) :
  In x (str_insert w l) <-> x = w \/ In x l.
Proof.
  induction l as [|u l IH]; simpl.
  - intuition.
  - destruct (String.ltb u w); simpl; rewrite ?IH; intuition.
Qed.

Lemma str_sorted_In (x : string) (l : list string) :
  In x (str_sorted l) <-> In x l.
Proof.
  induction l as [|w l IH]; simpl; [reflexivity|].
  rewrite str_insert_In, IH. intuition.
Qed.

Lemma str_insert_strict (w : string) (l : list string) :
  StronglySorted str_lt l -> ~ In w l ->
  StronglySorted str_lt (str_insert w l).
Proof.
  induction 1 as [|u l Hs IH Hu]; intro Hnin; simpl.
  - repeat constructor.
  - destruct (String.ltb u w) eqn:E.
    + constructor; [apply IH; intro; apply Hnin; right; assumption|].
      apply Forall_forall. intros x Hx.
      apply str_insert_In in Hx as [->|Hx]; [exact E|].
      rewrite Forall_forall in Hu. auto.
    + assert (Hlt : str_lt w u).
      { apply str_total; [assumption|]. intros ->. apply Hnin. left; auto. }
      constructor; [constructor; assumption|].
      constructor; [assumption|].
      eapply Forall_impl; [|exact Hu].
      intros x Hx. eapply str_lt_trans; eassumption.
Qed.

Lemma str_sorted_strict (l : list string) :
  NoDup l -> StronglySorted str_lt (str_sorted l).
Proof.
  induction 1 as [|w l Hnin Hnd IH]; simpl; [constructor|].
  apply str_insert_strict; [assumption|].
  change (~ In w (str_sorted l)). rewrite str_sorted_In. assumption.
Qed.

Lemma strict_NoDup (l : list string) : StronglySorted str_lt l -> NoDup l.
Proof.
  induction 1 as [|w l Hs IH Hw]; constructor; [|assumption].
  intro Hin. rewrite Forall_forall in Hw.
  exact (str_lt_irrefl w (Hw w Hin)).
Qed.

(** * The figures *)

Module FigureFacts.
Import Analysis Figures.

(** ** Figure 5: the power breakdown *)

(** X12: the breakdown of Figure 5 inverts the generator's power model:
    for a record made by the generator, the static part is the generator's
    static power and the dynamic part is the generator's dynamic power to
    within 0.05 mW, the rounding of [avg_power] to one decimal. *)
Theorem breakdown_recovers_power (v f : Q) (w : string) (l : Sample.Locals)
    (icache_hit dcache_hit : Q) :
  Sample.locals v f w = Ok l ->
  exists e,
    Sample.entry_of v f w l icache_hit dcache_hit = Ok e
    /\ bar_static (breakdown (voltage e) (frequency e) e)
       == Sample.l_static_power l
    /\ near 1 (bar_dynamic (breakdown (voltage e) (frequency e) e))
              (Sample.l_dynamic_power l)
    /\ near 1 (bar_total (breakdown (voltage e) (frequency e) e))
              (Sample.l_avg_power l).
Proof.
  intro H. destruct (locals_ok_inv v f w l H) as [H0 H1].
  apply locals_inv in H. cbv zeta in H.
  destruct H as (Hi & Hd & Hs & Ha & _).
  unfold Sample.entry_of. rewrite py_div_nonzero
    by (rewrite Hi, base_ipc_zero_iff; exact H1).
  cbn [bind]. eexists. split; [reflexivity|].
  unfold breakdown, bar_total. cbn.
  destruct (py_round_near (Sample.l_avg_power l) 1) as [Hlo Hhi].
  rewrite Hs, Hd. rewrite Ha in *. unfold Sample.static_power, near in *.
  split; [reflexivity|]. split; split; lra.
Qed.

Lemma breakdown_recovers_power_witness :
  exists l e,
    Sample.locals (6 # 10) 50 "healthcare_monitor_test" = Ok l
    /\ Sample.entry_of (6 # 10) 50 "healthcare_monitor_test" l 0 0 = Ok e
    /\ near 1 (bar_dynamic (breakdown (voltage e) (frequency e) e))
              (Sample.l_dynamic_power l).
Proof.
  destruct (Sample.locals (6 # 10) 50 "healthcare_monitor_test")
    as [l|] eqn:E; [|vm_compute in E; discriminate].
  destruct (breakdown_recovers_power _ _ _ l 0 0 E)
    as (e & He & _ & Hd & _).
  exists l, e. auto.
Defined.

Lemma breakdown_bars_In (results : list Entry) (pts : list point) (b : Bar) :
  In b (breakdown_bars results pts) <->
  exists v f r,
    In (v, f) pts /\ find (baseline v f) results = Some r
    /\ b = breakdown v f r.
Proof.
  induction pts as [|[v f] pts IH]; simpl.
  - split; [intros [] | intros (? & ? & ? & [] & _)].
  - destruct (find (baseline v f) results) as [r|] eqn:E.
    + simpl. rewrite IH. split.
      * intros [<-|(v' & f' & r' & Hin & Hf & Hb)].
        -- exists v, f, r. auto.
        -- exists v', f', r'. auto.
      * intros (v' & f' & r' & [Heq|Hin] & Hf & Hb).
        -- injection Heq as <- <-. left. congruence.
        -- right. exists v', f', r'. auto.
    + rewrite IH. split.
      * intros (v' & f' & r' & Hin & Hf & Hb). exists v', f', r'. auto.
      * intros (v' & f' & r' & [Heq|Hin] & Hf & Hb).
        -- injection Heq as <- <-. congruence.
        -- exists v', f', r'. auto.
Qed.

Lemma breakdown_bars_Forall (P : point -> Prop) (results : list Entry)
    (pts : list point) :
  Forall P pts -> Forall P (map bar_point (breakdown_bars results pts)).
Proof.
  induction 1 as [|[v f] pts Hp Hpts IH]; simpl; [constructor|].
  destruct (find (baseline v f) results); [|assumption].
  simpl. constructor; assumption.
Qed.

Lemma breakdown_bars_strict (results : list Entry) (pts : list point) :
  StronglySorted lex_lt pts ->
  StronglySorted lex_lt (map bar_point (breakdown_bars results pts)).
Proof.
  induction 1 as [|[v f] pts Hs IH Hp]; simpl; [constructor|].
  destruct (find (baseline v f) results); [|assumption].
  simpl. constructor; [assumption|].
  apply breakdown_bars_Forall. assumption.
Qed.

Lemma baseline_iff (v f : Q) (r : Entry) :
  baseline v f r = true <->
  voltage r == v /\ frequency r == f
  /\ workload r = "healthcare_monitor_test"%string.
Proof.
  unfold baseline, at_point.
  rewrite !andb_true_iff, !Qeq_bool_iff, String.eqb_eq. tauto.
Qed.

(** A point of the table has a first baseline record as soon as some
    record of the baseline workload lies at it. *)
Lemma baseline_found (results : list Entry) (r : Entry) :
  In r results -> workload r = "healthcare_monitor_test"%string ->
  exists p r',
    In p (points_of results)
    /\ point_eq (voltage r, frequency r) p
    /\ find (baseline (fst p) (snd p)) results = Some r'.
Proof.
  intros Hr Hw.
  destruct (points_of_complete results r Hr) as (p & Hp & [Ev Ef]).
  simpl in Ev, Ef.
  destruct (find (baseline (fst p) (snd p)) results) as [r'|] eqn:E.
  - exists p, r'. repeat split; assumption.
  - exfalso. pose proof (find_none _ _ E r Hr) as Hn.
    assert (Ht : baseline (fst p) (snd p) r = true)
      by (apply baseline_iff; auto).
    congruence.
Qed.

(** X13: Figure 5 has one stacked bar for each point that holds a record
    of the baseline workload, in increasing tuple order; its static part
    is 5 times the voltage and the total written over it is the
    [avg_power] of the first baseline record at that point, so that the
    dynamic part is whatever remains, negative included. *)
Theorem power_breakdown_bars (results : list Entry) :
  StronglySorted lex_lt (map bar_point (plot_power_breakdown results))
  /\ (forall b, In b (plot_power_breakdown results) ->
        exists r,
          In r results
          /\ find (baseline (bar_voltage b) (bar_frequency b)) results
             = Some r
          /\ bar_static b == 5 * bar_voltage b
          /\ bar_total b == avg_power (metrics r))
  /\ (forall r, In r results ->
        workload r = "healthcare_monitor_test"%string ->
        exists b, In b (plot_power_breakdown results)
                  /\ point_eq (voltage r, frequency r) (bar_point b)).
Proof.
  unfold plot_power_breakdown. split; [|split].
  - apply breakdown_bars_strict, points_of_strict.
  - intros b Hb. apply breakdown_bars_In in Hb as (v & f & r & _ & Hf & ->).
    exists r. cbn. split; [eapply find_some; eassumption|].
    split; [assumption|]. unfold bar_total. cbn. split; ring.
  - intros r Hr Hw.
    destruct (baseline_found results r Hr Hw) as ([v f] & r' & Hp & He & Hf).
    exists (breakdown v f r'). split; [|exact He].
    apply breakdown_bars_In. exists v, f, r'. auto.
Qed.

Lemma power_breakdown_bars_witness :
  exists b,
    In b (plot_power_breakdown tied_results)
    /\ point_eq (6 # 10, 50) (bar_point b).
Proof.
  destruct (power_breakdown_bars tied_results) as (_ & _ & H).
  apply (H (entry_with (6 # 10) 50 "healthcare_monitor_test"
                       (5 # 10000) (4 # 10) 20)).
  - simpl. auto.
  - reflexivity.
Defined.

(** ** Figures 2 and 6: when they fail *)

Lemma active_nonempty_iff (results : list Entry) :
  (exists p, In p (points_of results)
             /\ active_results results (fst p) (snd p) <> [])
  <-> exists r, In r results /\ workload r <> "idle_scenario"%string.
Proof.
  split.
  - intros ([v f] & _ & Hne). simpl in Hne.
    destruct (active_results results v f) as [|r act] eqn:E; [congruence|].
    assert (Hr : In r (active_results results v f)) by (rewrite E; left; auto).
    rewrite AnalysisFacts.active_results_filter in Hr.
    apply filter_In in Hr as [Hin Hact].
    apply AnalysisFacts.active_iff in Hact as (_ & _ & Hw). eauto.
  - intros (r & Hr & Hw).
    destruct (points_of_complete results r Hr) as ([v f] & Hp & [Ev Ef]).
    simpl in Ev, Ef. exists (v, f). split; [assumption|]. simpl.
    assert (Hin : In r (active_results results v f)).
    { rewrite AnalysisFacts.active_results_filter. apply filter_In.
      split; [assumption|]. apply AnalysisFacts.active_iff. auto. }
    intro Hnil. rewrite Hnil in Hin. destruct Hin.
Qed.

(** X3: Figure 2 is drawn exactly when some record has a workload other
    than "idle_scenario"; otherwise (an empty collection included) the
    function raises ValueError. *)
Theorem plot_energy_efficiency_succeeds_iff (results : list Entry) :
  ((exists rows i, plot_energy_efficiency results = Ok (rows, i))
   <-> exists r, In r results /\ workload r <> "idle_scenario"%string)
  /\ (plot_energy_efficiency results = Raise ValueError
      <-> forall r, In r results -> workload r = "idle_scenario"%string).
Proof.
  assert (Hrows : energy_rows results (points_of results) <> []
                  <-> exists r, In r results
                                /\ workload r <> "idle_scenario"%string).
  { rewrite <- active_nonempty_iff. split.
    - intro Hne.
      destruct (energy_rows results (points_of results)) as [|row rows] eqn:E;
        [congruence|].
      assert (Hin : In row (energy_rows results (points_of results)))
        by (rewrite E; left; auto).
      apply AnalysisFacts.energy_rows_In in Hin as (v & f & Hp & Hact & _).
      exists (v, f). auto.
    - intros ([v f] & Hp & Hact) Hnil. simpl in Hact.
      assert (Hin : In (mkRow v f (np_mean (map epi_of
                                     (active_results results v f))))
                       (energy_rows results (points_of results))).
      { apply AnalysisFacts.energy_rows_In. exists v, f. auto. }
      rewrite Hnil in Hin. destruct Hin. }
  assert (Hplot : match plot_energy_efficiency results with
                  | Ok _ => energy_rows results (points_of results) <> []
                  | Raise e => e = ValueError
                               /\ energy_rows results (points_of results) = []
                  end).
  { unfold plot_energy_efficiency.
    destruct (energy_rows results (points_of results)) as [|row rows].
    - simpl. auto.
    - cbn [voltages map py_max bind values np_argmin]. discriminate. }
  destruct (plot_energy_efficiency results) as [[rows i]|e].
  - split; split.
    + intros _. apply Hrows. assumption.
    + intros _. eauto.
    + discriminate.
    + intro Hall. apply Hrows in Hplot as (r & Hr & Hw).
      exfalso. auto.
  - destruct Hplot as [-> Hnil]. split; split.
    + intros (rows & i & H). discriminate.
    + intro H. apply Hrows in H. contradiction.
    + intros _ r Hr.
      destruct (String.eqb_spec (workload r) "idle_scenario"); [assumption|].
      exfalso. apply (proj2 Hrows); eauto.
    + reflexivity.
Qed.

Lemma efficiency_rows_spec (results : list Entry) (pts : list point) :
  match efficiency_rows results pts with
  | Ok rows =>
      (forall v f r, In (v, f) pts ->
         find (baseline v f) results = Some r ->
         ~ avg_power (metrics r) == 0)
      /\ (rows = [] <->
          forall v f, In (v, f) pts -> find (baseline v f) results = None)
  | Raise e =>
      e = ZeroDivisionError
      /\ exists v f r,
           In (v, f) pts /\ find (baseline v f) results = Some r
           /\ avg_power (metrics r) == 0
  end.
Proof.
  induction pts as [|[v f] pts IH]; simpl.
  - split; [intros ? ? ? [] | split; [intros _ ? ? [] | reflexivity]].
  - destruct (find (baseline v f) results) as [r|] eqn:E.
    + unfold py_div.
      destruct (Qeq_bool (avg_power (metrics r)) 0) eqn:Ez; cbn [bind].
      * apply Qeq_bool_iff in Ez. split; [reflexivity|].
        exists v, f, r. auto.
      * assert (Hnz : ~ avg_power (metrics r) == 0).
        { intro H. apply Qeq_bool_iff in H. congruence. }
        destruct (efficiency_rows results pts) as [rows|e]; cbn [bind].
        -- destruct IH as [IH1 IH2]. split.
           ++ intros v' f' r' [Heq|Hin] Hf.
              ** injection Heq as <- <-. congruence.
              ** eapply IH1; eassumption.
           ++ split; [discriminate|].
              intro H. specialize (H v f (or_introl eq_refl)). congruence.
        -- destruct IH as [-> (v' & f' & r' & Hin & Hf & Hz)].
           split; [reflexivity|]. exists v', f', r'. auto.
    + destruct (efficiency_rows results pts) as [rows|e].
      * destruct IH as [IH1 IH2]. split.
        -- intros v' f' r' [Heq|Hin] Hf.
           ++ injection Heq as <- <-. congruence.
           ++ eapply IH1; eassumption.
        -- rewrite IH2. split.
           ++ intros H v' f' [Heq|Hin]; [injection Heq as <- <-|]; auto.
           ++ intros H v' f' Hin. auto.
      * destruct IH as [-> (v' & f' & r' & Hin & Hf & Hz)].
        split; [reflexivity|]. exists v', f', r'. auto.
Qed.

Lemma no_baseline_iff (results : list Entry) :
  (forall v f, In (v, f) (points_of results) ->
               find (baseline v f) results = None)
  <-> forall r, In r results ->
                workload r <> "healthcare_monitor_test"%string.
Proof.
  split.
  - intros H r Hr Hw.
    destruct (baseline_found results r Hr Hw) as ([v f] & r' & Hp & _ & Hf).
    simpl in Hf. rewrite (H v f Hp) in Hf. discriminate.
  - intros H v f _.
    destruct (find (baseline v f) results) as [r|] eqn:E; [|reflexivity].
    apply find_some in E as [Hr Hb].
    apply baseline_iff in Hb as (_ & _ & Hw). exfalso. eapply H; eassumption.
Qed.

(** X4: Figure 6 raises ZeroDivisionError exactly when the first baseline
    record of some point has [avg_power] 0, and ValueError exactly when no
    record has the baseline workload "healthcare_monitor_test"; in every
    other case it is drawn. *)
Theorem plot_dvfs_efficiency_curve_outcome (results : list Entry) :
  (plot_dvfs_efficiency_curve results = Raise ZeroDivisionError
   <-> exists v f r,
         In (v, f) (points_of results)
         /\ find (baseline v f) results = Some r
         /\ avg_power (metrics r) == 0)
  /\ (plot_dvfs_efficiency_curve results = Raise ValueError
      <-> forall r, In r results ->
                    workload r <> "healthcare_monitor_test"%string)
  /\ ((exists rows i, plot_dvfs_efficiency_curve results = Ok (rows, i))
      <-> (exists r, In r results
                     /\ workload r = "healthcare_monitor_test"%string)
          /\ forall v f r,
               In (v, f) (points_of results) ->
               find (baseline v f) results = Some r ->
               ~ avg_power (metrics r) == 0).
Proof.
  pose proof (efficiency_rows_spec results (points_of results)) as Hs.
  pose proof (no_baseline_iff results) as Hnb.
  unfold plot_dvfs_efficiency_curve.
  destruct (efficiency_rows results (points_of results)) as [rows|e];
    cbn [bind].
  - destruct Hs as [Hnz Hnil].
    assert (Hno0 : ~ exists v f r,
                     In (v, f) (points_of results)
                     /\ find (baseline v f) results = Some r
                     /\ avg_power (metrics r) == 0).
    { intros (v & f & r & Hp & Hf & Hz). exact (Hnz v f r Hp Hf Hz). }
    destruct rows as [|row rows]; simpl.
    + assert (Hall : forall r, In r results ->
                       workload r <> "healthcare_monitor_test"%string)
        by (apply Hnb, Hnil; reflexivity).
      split; [|split]; split; try discriminate; try tauto.
      * intros (rws & i & H). discriminate.
      * intros [(r & Hr & Hw) _]. exfalso. eapply Hall; eassumption.
    + assert (Hsome : exists r, In r results
                        /\ workload r = "healthcare_monitor_test"%string).
      { destruct (existsb (fun r => String.eqb (workload r)
                                      "healthcare_monitor_test") results)
          eqn:Ex.
        - apply existsb_exists in Ex as (r & Hr & Hw).
          apply String.eqb_eq in Hw. eauto.
        - exfalso. assert (Habs : row :: rows = []); [|discriminate].
          apply Hnil, Hnb. intros r Hr Hw.
          assert (Ht : existsb (fun r => String.eqb (workload r)
                                  "healthcare_monitor_test") results = true).
          { apply existsb_exists. exists r. split; [assumption|].
            apply String.eqb_eq. assumption. }
          congruence. }
      split; [|split]; split; try discriminate; try tauto.
      * intro Hall. destruct Hsome as (r & Hr & Hw).
        exfalso. eapply Hall; eassumption.
      * intros _. eauto.
  - destruct Hs as [-> Hex].
    split; [|split]; split; try discriminate; try tauto.
    + intro Hall. destruct Hex as (v & f & r & _ & Hf & _).
      apply find_some in Hf as [Hr Hb].
      apply baseline_iff in Hb as (_ & _ & Hw).
      exfalso. eapply Hall; eassumption.
    + intros (rws & i & H). discriminate.
    + intros [_ Hnz]. destruct Hex as (v & f & r & Hp & Hf & Hz).
      exfalso. exact (Hnz v f r Hp Hf Hz).
Qed.

(** ** Figures 1, 3 and 4: the workloads *)

Lemma workloads_of_strict (results : list Entry) :
  StronglySorted str_lt (workloads_of results).
Proof. apply str_sorted_strict, str_set_NoDup. Qed.

Lemma workloads_of_In (results : list Entry) (w : string) :
  In w (workloads_of results) <-> exists r, In r results /\ workload r = w.
Proof.
  unfold workloads_of. rewrite str_sorted_In, str_set_In, in_map_iff.
  split; intros (r & H1 & H2); exists r; auto.
Qed.

Lemma has_workload_iff (w : string) (r : Entry) :
  has_workload w r = true <-> workload r = w.
Proof. apply String.eqb_eq. Qed.

Lemma first_per_workload_In (at_results : list Entry) (ws : list string)
    (r : Entry) :
  In r (first_per_workload at_results ws) <->
  exists w, In w ws /\ find (has_workload w) at_results = Some r.
Proof.
  induction ws as [|w ws IH]; simpl.
  - split; [intros [] | intros (? & [] & _)].
  - destruct (find (has_workload w) at_results) as [r'|] eqn:E.
    + simpl. rewrite IH. split.
      * intros [<-|(w' & Hin & Hf)]; [exists w | exists w']; auto.
      * intros (w' & [<-|Hin] & Hf); [left; congruence | right; eauto].
    + rewrite IH. split.
      * intros (w' & Hin & Hf). eauto.
      * intros (w' & [<-|Hin] & Hf); [congruence | eauto].
Qed.

Lemma first_per_workload_Forall (P : string -> Prop)
    (at_results : list Entry) (ws : list string) :
  Forall P ws -> Forall P (map workload (first_per_workload at_results ws)).
Proof.
  induction 1 as [|w ws Hw Hws IH]; simpl; [constructor|].
  destruct (find (has_workload w) at_results) as [r|] eqn:E; [|assumption].
  simpl. constructor; [|assumption].
  apply find_some in E as [_ E]. apply has_workload_iff in E.
  rewrite E. assumption.
Qed.

Lemma first_per_workload_strict (at_results : list Entry)
    (ws : list string) :
  StronglySorted str_lt ws ->
  StronglySorted str_lt (map workload (first_per_workload at_results ws)).
Proof.
  induction 1 as [|w ws Hs IH Hw]; simpl; [constructor|].
  destruct (find (has_workload w) at_results) as [r|] eqn:E; [|assumption].
  simpl. constructor; [assumption|].
  apply find_some in E as [_ E]. apply has_workload_iff in E. rewrite E.
  apply first_per_workload_Forall. assumption.
Qed.

(** The bars at a point: none exactly when no record lies at the point. *)
Lemma first_per_workload_nil (results : list Entry) (v f : Q) :
  first_per_workload (filter (at_point v f) results) (workloads_of results)
  = []
  <-> forall r, In r results -> at_point v f r = false.
Proof.
  split.
  - intros Hnil r Hr.
    destruct (at_point v f r) eqn:Ea; [|reflexivity]. exfalso.
    assert (Hin : In r (filter (at_point v f) results))
      by (apply filter_In; auto).
    destruct (find (has_workload (workload r))
                   (filter (at_point v f) results)) as [r'|] eqn:E.
    + assert (Hb : In r' (first_per_workload
                            (filter (at_point v f) results)
                            (workloads_of results))).
      { apply first_per_workload_In. exists (workload r).
        split; [apply workloads_of_In; eauto | assumption]. }
      rewrite Hnil in Hb. destruct Hb.
    + pose proof (find_none _ _ E r Hin) as Hn.
      unfold has_workload in Hn. rewrite String.eqb_refl in Hn. discriminate.
  - intro Hall.
    destruct (first_per_workload _ _) as [|r bars] eqn:E; [reflexivity|].
    exfalso.
    assert (Hin : In r (first_per_workload
                          (filter (at_point v f) results)
                          (workloads_of results)))
      by (rewrite E; left; auto).
    apply first_per_workload_In in Hin as (w & _ & Hf).
    apply find_some in Hf as [Hf _]. apply filter_In in Hf as [Hr Ha].
    rewrite (Hall r Hr) in Ha. discriminate.
Qed.

Lemma bars_iff (results : list Entry) (v f : Q) (w : string) (r : Entry) :
  (In r (first_per_workload (filter (at_point v f) results)
                            (workloads_of results))
   /\ workload r = w)
  <-> find (has_workload w) (filter (at_point v f) results) = Some r.
Proof.
  rewrite first_per_workload_In. split.
  - intros ((w' & _ & Hf) & Hw).
    pose proof (find_some _ _ Hf) as [_ Hh]. apply has_workload_iff in Hh.
    congruence.
  - intro Hf. pose proof (find_some _ _ Hf) as [Hin Hh].
    apply has_workload_iff in Hh. apply filter_In in Hin as [Hr _].
    split; [|assumption]. exists w.
    split; [apply workloads_of_In; eauto | assumption].
Qed.

(** X14: Figure 3 raises ValueError exactly when no record lies at
    (1.2 V, 800 MHz).  Otherwise it has one bar for each workload that has
    a record there, in increasing order of the workload names, showing the
    [ipc] of the first such record. *)
Theorem plot_ipc_comparison_outcome (results : list Entry) :
  match plot_ipc_comparison results with
  | Ok bars =>
      (exists r, In r results /\ at_point (12 # 10) 800 r = true)
      /\ StronglySorted str_lt (map fst bars)
      /\ forall w i,
           In (w, i) bars <->
           exists r,
             find (has_workload w)
                  (filter (at_point (12 # 10) 800) results) = Some r
             /\ i = ipc (metrics r)
  | Raise e =>
      e = ValueError
      /\ forall r, In r results -> at_point (12 # 10) 800 r = false
  end.
Proof.
  unfold plot_ipc_comparison.
  pose proof (first_per_workload_nil results (12 # 10) 800) as Hnil.
  pose proof (first_per_workload_strict
                (filter (at_point (12 # 10) 800) results) _
                (workloads_of_strict results)) as Hs.
  pose proof (bars_iff results (12 # 10) 800) as Hb.
  remember (first_per_workload (filter (at_point (12 # 10) 800) results)
                               (workloads_of results)) as fb eqn:E.
  clear E.
  assert (Hmax : match py_max (map (fun r => ipc (metrics r)) fb) with
                 | Ok _ => exists r0, In r0 fb
                 | Raise e => e = ValueError /\ fb = []
                 end).
  { destruct fb as [|r0 bars]; simpl; [auto|]. exists r0. auto. }
  destruct (py_max (map (fun r => ipc (metrics r)) fb)) as [m|e];
    cbn [bind].
  - destruct Hmax as (r0 & Hin). split; [|split].
    + pose proof (proj1 (Hb (workload r0) r0) (conj Hin eq_refl)) as Hf.
      apply find_some in Hf as [Hf _]. apply filter_In in Hf. eauto.
    + rewrite map_map. exact Hs.
    + intros w i. rewrite in_map_iff. split.
      * intros (r & Heq & Hr). injection Heq as <- <-.
        exists r. split; [apply Hb; auto | reflexivity].
      * intros (r & Hf & ->). apply Hb in Hf as [Hr <-].
        exists r. auto.
  - destruct Hmax as [-> Hfb]. split; [reflexivity|].
    apply Hnil. assumption.
Qed.

(** X15: Figure 4 has one pair of bars for each workload that has a
    record at (0.9 V, 400 MHz), in increasing order of the workload names,
    showing 100 times the hit rates of the first such record; it has no
    bar exactly when no record lies at that point. *)
Theorem plot_cache_performance_bars (results : list Entry) :
  StronglySorted str_lt
    (map (fun b => fst (fst b)) (plot_cache_performance results))
  /\ (forall w ic dc,
        In (w, ic, dc) (plot_cache_performance results) <->
        exists r,
          find (has_workload w)
               (filter (at_point (9 # 10) 400) results) = Some r
          /\ ic = icache_hit_rate (metrics r) * 100
          /\ dc = dcache_hit_rate (metrics r) * 100)
  /\ (plot_cache_performance results = [] <->
      forall r, In r results -> at_point (9 # 10) 400 r = false).
Proof.
  unfold plot_cache_performance.
  pose proof (bars_iff results (9 # 10) 400) as Hb.
  split; [|split].
  - rewrite map_map. simpl.
    apply first_per_workload_strict, workloads_of_strict.
  - intros w ic dc. rewrite in_map_iff. split.
    + intros (r & Heq & Hin). injection Heq as <- <- <-.
      exists r. split; [apply Hb; auto | auto].
    + intros (r & Hf & -> & ->). apply Hb in Hf as [Hin <-].
      exists r. auto.
  - rewrite <- first_per_workload_nil.
    destruct (first_per_workload _ _); simpl; split; congruence.
Qed.

(** The number of labels of a duplicate-free list that a record carries. *)
Lemma one_series_per_record (ws : list string) (r : Entry) :
  NoDup ws -> In (workload r) ws ->
  list_sum (map (fun w => if has_workload w r then 1%nat else 0%nat) ws)
  = 1%nat.
Proof.
  induction 1 as [|w ws Hnin Hnd IH]; simpl; [intros []|].
  intros [Heq|Hin].
  - subst w. unfold has_workload at 1. rewrite String.eqb_refl.
    f_equal. clear IH Hnd. induction ws as [|u ws IH]; simpl; [reflexivity|].
    destruct (has_workload u r) eqn:E.
    + apply has_workload_iff in E. exfalso. apply Hnin. left. auto.
    + apply IH. intro H. apply Hnin. right. assumption.
  - destruct (has_workload w r) eqn:E.
    + apply has_workload_iff in E. subst w. contradiction.
    + simpl. auto.
Qed.

Lemma series_sizes_cons (ws : list string) (r : Entry)
    (results : list Entry) :
  list_sum (map (fun w => List.length (filter (has_workload w) (r :: results)))
                ws)
  = (list_sum (map (fun w => if has_workload w r then 1%nat else 0%nat) ws)
     + list_sum (map (fun w => List.length (filter (has_workload w) results))
                     ws))%nat.
Proof.
  induction ws as [|w ws IH]; [reflexivity|].
  cbn [map list_sum fold_right]. unfold list_sum in IH. rewrite IH.
  cbn [filter]. destruct (has_workload w r); simpl; lia.
Qed.

Lemma series_sizes (ws : list string) (results : list Entry) :
  NoDup ws -> (forall r, In r results -> In (workload r) ws) ->
  list_sum (map (fun w => List.length (filter (has_workload w) results)) ws)
  = List.length results.
Proof.
  intros Hnd. induction results as [|r results IH]; intro Hall.
  - simpl. clear. induction ws as [|w ws IHw]; simpl; [reflexivity|].
    assumption.
  - etransitivity; [apply series_sizes_cons|].
    rewrite IH by (intros; apply Hall; right; assumption).
    rewrite (one_series_per_record ws r Hnd (Hall r (or_introl eq_refl))).
    reflexivity.
Qed.

(** X16: Figure 1 has one curve for each workload of the collection, in
    increasing order of the workload names; a curve holds the frequencies
    and powers of exactly the records of its workload, in the order of the
    collection, and the curves together hold as many points as there are
    records: none is dropped and none is drawn twice. *)
Theorem power_performance_partition (results : list Entry) :
  let curves := plot_dvfs_power_performance results in
  StronglySorted str_lt (map s_workload curves)
  /\ (forall w, In w (map s_workload curves) <->
                exists r, In r results /\ workload r = w)
  /\ (forall c, In c curves ->
        s_frequencies c
        = map frequency (filter (has_workload (s_workload c)) results)
        /\ s_avg_powers c
           = map (fun r => avg_power (metrics r))
                 (filter (has_workload (s_workload c)) results)
        /\ s_frequencies c <> [])
  /\ list_sum (map (fun c => List.length (s_frequencies c)) curves)
     = List.length results.
Proof.
  cbv zeta. unfold plot_dvfs_power_performance.
  assert (Hw : map s_workload (map (series_of results) (workloads_of results))
               = workloads_of results).
  { rewrite map_map. simpl. apply map_id. }
  split; [|split; [|split]].
  - rewrite Hw. apply workloads_of_strict.
  - intro w. rewrite Hw. apply workloads_of_In.
  - intros c Hc. apply in_map_iff in Hc as (w & <- & Hin). simpl.
    split; [reflexivity|]. split; [reflexivity|].
    apply workloads_of_In in Hin as (r & Hr & Hwr).
    assert (Hf : In r (filter (has_workload w) results))
      by (apply filter_In; split; [assumption | apply has_workload_iff; auto]).
    destruct (filter (has_workload w) results); [destruct Hf | discriminate].
  - rewrite map_map. simpl.
    rewrite <- (series_sizes (workloads_of results) results).
    + f_equal. apply map_ext. intro w. apply length_map.
    + apply strict_NoDup, workloads_of_strict.
    + intros r Hr. apply workloads_of_In. eauto.
Qed.

(** ** Table 1 *)

Lemma table_rows_at_In (results : list Entry) (v f : Q) (ws : list string)
    (r : Entry) :
  In r (table_rows_at results v f ws) <->
  exists w, In w ws /\ find (selected v f w) results = Some r.
Proof.
  induction ws as [|w ws IH]; simpl.
  - split; [intros [] | intros (? & [] & _)].
  - destruct (find (selected v f w) results) as [r'|] eqn:E.
    + simpl. rewrite IH. split.
      * intros [<-|(w' & Hin & Hf)]; [exists w | exists w']; auto.
      * intros (w' & [<-|Hin] & Hf); [left; congruence | right; eauto].
    + rewrite IH. split.
      * intros (w' & Hin & Hf). eauto.
      * intros (w' & [<-|Hin] & Hf); [congruence | eauto].
Qed.

Lemma table_rows_In (results : list Entry) (pts : list point)
    (ws : list string) (r : Entry) :
  In r (table_rows results pts ws) <->
  exists v f w,
    In (v, f) pts /\ In w ws /\ find (selected v f w) results = Some r.
Proof.
  induction pts as [|[v f] pts IH]; simpl.
  - split; [intros [] | intros (? & ? & ? & [] & _)].
  - rewrite in_app_iff, table_rows_at_In, IH. split.
    + intros [(w & Hw & Hf)|(v' & f' & w & Hp & Hw & Hf)].
      * exists v, f, w. auto.
      * exists v', f', w. auto.
    + intros (v' & f' & w & [Heq|Hp] & Hw & Hf).
      * injection Heq as <- <-. left. eauto.
      * right. exists v', f', w. auto.
Qed.

Lemma table_rows_at_length (results : list Entry) (v f : Q)
    (ws : list string) :
  (List.length (table_rows_at results v f ws) <= List.length ws)%nat.
Proof.
  induction ws as [|w ws IH]; simpl; [lia|].
  destruct (find (selected v f w) results); simpl; lia.
Qed.

Lemma table_rows_length (results : list Entry) (pts : list point)
    (ws : list string) :
  (List.length (table_rows results pts ws)
   <= List.length pts * List.length ws)%nat.
Proof.
  induction pts as [|[v f] pts IH]; simpl; [lia|].
  rewrite length_app. pose proof (table_rows_at_length results v f ws). lia.
Qed.

Lemma selected_iff (v f : Q) (w : string) (r : Entry) :
  selected v f w r = true <->
  voltage r == v /\ frequency r == f /\ workload r = w.
Proof.
  unfold selected, at_point, has_workload.
  rewrite !andb_true_iff, !Qeq_bool_iff, String.eqb_eq. tauto.
Qed.

Lemma table_data_nil_iff (results : list Entry) :
  table_data results = [] <->
  forall r v f w,
    In r results -> In (v, f) selected_points -> In w selected_workloads ->
    selected v f w r = false.
Proof.
  unfold table_data. split.
  - intros Hnil r v f w Hr Hp Hw.
    destruct (selected v f w r) eqn:Es; [|reflexivity]. exfalso.
    destruct (find (selected v f w) results) as [r'|] eqn:E.
    + assert (Hin : In r' (table_rows results selected_points
                                      selected_workloads))
        by (apply table_rows_In; exists v, f, w; auto).
      rewrite Hnil in Hin. destruct Hin.
    + rewrite (find_none _ _ E r Hr) in Es. discriminate.
  - intro Hall.
    destruct (table_rows results selected_points selected_workloads)
      as [|r rows] eqn:E; [reflexivity|]. exfalso.
    assert (Hin : In r (table_rows results selected_points
                                   selected_workloads))
      by (rewrite E; left; auto).
    apply table_rows_In in Hin as (v & f & w & Hp & Hw & Hf).
    apply find_some in Hf as [Hr Hs].
    rewrite (Hall r v f w Hr Hp Hw) in Hs. discriminate.
Qed.

(** X17: read from a results file, Table 1 has at most 16 rows, one for
    each selected (point, workload) pair that has a record, made from the
    first such record; when no pair has a record the function raises
    IndexError.  The random state is left alone. *)
Theorem results_table_rows (results : list Entry) (st : RandomState) :
  match generate_results_table (Some results) st with
  | Done (rows, st') =>
      st' = st
      /\ rows <> []
      /\ (List.length rows <= 16)%nat
      /\ forall r,
           In r rows <->
           exists v f w,
             In (v, f) selected_points /\ In w selected_workloads
             /\ find (selected v f w) results = Some r
  | Failed e =>
      e = IndexError
      /\ forall r v f w,
           In r results -> In (v, f) selected_points ->
           In w selected_workloads -> selected v f w r = false
  end.
Proof.
  unfold generate_results_table, load_dvfs_results, and_then.
  pose proof (table_data_nil_iff results) as Hnil.
  pose proof (table_rows_length results selected_points selected_workloads)
    as Hlen.
  assert (Hin : forall r,
             In r (table_data results) <->
             exists v f w,
               In (v, f) selected_points /\ In w selected_workloads
               /\ find (selected v f w) results = Some r)
    by (intro r; apply table_rows_In).
  fold (table_data results) in Hlen.
  destruct (table_data results) as [|r rows].
  - split; [reflexivity|]. apply Hnil. reflexivity.
  - split; [reflexivity|]. split; [discriminate|].
    split; [exact Hlen | exact Hin].
Qed.

(** ** The whole run *)

Lemma energy_plot_ok_iff (results : list Entry) :
  (exists fig, plot_energy_efficiency results = Ok fig)
  <-> exists r, In r results /\ workload r <> "idle_scenario"%string.
Proof.
  rewrite <- active_nonempty_iff. unfold plot_energy_efficiency. split.
  - intros (fig & H).
    destruct (energy_rows results (points_of results)) as [|row rows] eqn:E;
      [discriminate|].
    assert (Hin : In row (energy_rows results (points_of results)))
      by (rewrite E; left; auto).
    apply AnalysisFacts.energy_rows_In in Hin as (v & f & Hp & Hact & _).
    exists (v, f). auto.
  - intros ([v f] & Hp & Hact). simpl in Hact.
    assert (Hin : In (mkRow v f (np_mean (map epi_of
                                   (active_results results v f))))
                     (energy_rows results (points_of results))).
    { apply AnalysisFacts.energy_rows_In. exists v, f. auto. }
    destruct (energy_rows results (points_of results)) as [|row rows];
      [destruct Hin|].
    cbn [voltages map py_max bind values np_argmin]. eauto.
Qed.

Lemma ipc_plot_ok_iff (results : list Entry) :
  (exists fig, plot_ipc_comparison results = Ok fig)
  <-> exists r, In r results /\ at_point (12 # 10) 800 r = true.
Proof.
  unfold plot_ipc_comparison.
  pose proof (first_per_workload_nil results (12 # 10) 800) as Hnil.
  remember (first_per_workload (filter (at_point (12 # 10) 800) results)
                               (workloads_of results)) as fb eqn:E.
  clear E. split.
  - intros (fig & H). destruct fb as [|r0 bars]; [discriminate|].
    destruct (existsb (at_point (12 # 10) 800) results) eqn:Ex.
    + apply existsb_exists in Ex. exact Ex.
    + exfalso. assert (Habs : r0 :: bars = []); [|discriminate].
      apply Hnil. intros r Hr.
      destruct (at_point (12 # 10) 800 r) eqn:Ea; [|reflexivity].
      assert (existsb (at_point (12 # 10) 800) results = true)
        by (apply existsb_exists; eauto).
      congruence.
  - intros (r & Hr & Ha). destruct fb as [|r0 bars].
    + rewrite (proj1 Hnil eq_refl r Hr) in Ha. discriminate.
    + cbn [map py_max bind]. eauto.
Qed.

Lemma efficiency_plot_ok_iff (results : list Entry) :
  (exists fig, plot_dvfs_efficiency_curve results = Ok fig)
  <-> (exists r, In r results
                 /\ workload r = "healthcare_monitor_test"%string)
      /\ forall v f r,
           In (v, f) (points_of results) ->
           find (baseline v f) results = Some r ->
           ~ avg_power (metrics r) == 0.
Proof.
  pose proof (efficiency_rows_spec results (points_of results)) as Hs.
  pose proof (no_baseline_iff results) as Hnb.
  unfold plot_dvfs_efficiency_curve.
  destruct (efficiency_rows results (points_of results)) as [rows|e];
    cbn [bind].
  - destruct Hs as [Hnz Hnil]. destruct rows as [|row rows]; simpl.
    + split; [intros (fig & H); discriminate|].
      intros [(r & Hr & Hw) _]. exfalso.
      apply (proj1 Hnb (proj1 Hnil eq_refl) r Hr Hw).
    + split; [|eauto]. intros _. split; [|exact Hnz].
      destruct (existsb (fun r => String.eqb (workload r)
                                    "healthcare_monitor_test") results)
        eqn:Ex.
      * apply existsb_exists in Ex as (r & Hr & Hw).
        apply String.eqb_eq in Hw. eauto.
      * exfalso. assert (Habs : row :: rows = []); [|discriminate].
        apply Hnil, Hnb. intros r Hr Hw.
        assert (Ht : existsb (fun r => String.eqb (workload r)
                                "healthcare_monitor_test") results = true).
        { apply existsb_exists. exists r. split; [assumption|].
          apply String.eqb_eq. assumption. }
        congruence.
  - destruct Hs as [-> (v & f & r & Hp & Hf & Hz)].
    split; [intros (fig & H); discriminate|].
    intros [_ Hnz]. exfalso. exact (Hnz v f r Hp Hf Hz).
Qed.

Lemma table_ok_iff (results : list Entry) :
  table_data results <> [] <->
  exists r v f w,
    In r results /\ In (v, f) selected_points /\ In w selected_workloads
    /\ selected v f w r = true.
Proof.
  rewrite table_data_nil_iff. split.
  - intro Hne.
    destruct (table_data results) as [|r rows] eqn:E.
    + exfalso. apply Hne. apply table_data_nil_iff. assumption.
    + assert (Hin : In r (table_data results)) by (rewrite E; left; auto).
      apply table_rows_In in Hin as (v & f & w & Hp & Hw & Hf).
      apply find_some in Hf as [Hr Hs]. exists r, v, f, w. auto.
  - intros (r & v & f & w & Hr & Hp & Hw & Hs) Hall.
    rewrite (Hall r v f w Hr Hp Hw) in Hs. discriminate.
Qed.

(** X18: run on a results file, the script draws every figure and writes
    the table exactly when the file holds a record of a non-idle workload,
    a record at (1.2 V, 800 MHz), a record of the baseline workload, no
    first baseline record of zero power, and a record for one of the 16
    selected (point, workload) pairs; it then leaves the random state
    alone.  In every other case it raises. *)
Theorem generate_all_figures_from_file (results : list Entry)
    (st : RandomState) :
  (generate_all_figures (Some results) st = Done st
   <-> (exists r, In r results /\ workload r <> "idle_scenario"%string)
       /\ (exists r, In r results /\ at_point (12 # 10) 800 r = true)
       /\ ((exists r, In r results
                      /\ workload r = "healthcare_monitor_test"%string)
           /\ forall v f r,
                In (v, f) (points_of results) ->
                find (baseline v f) results = Some r ->
                ~ avg_power (metrics r) == 0)
       /\ (exists r v f w,
             In r results /\ In (v, f) selected_points
             /\ In w selected_workloads /\ selected v f w r = true))
  /\ (generate_all_figures (Some results) st = Done st
      \/ exists e, generate_all_figures (Some results) st = Failed e).
Proof.
  pose proof (energy_plot_ok_iff results) as H2.
  pose proof (ipc_plot_ok_iff results) as H3.
  pose proof (efficiency_plot_ok_iff results) as H6.
  pose proof (table_ok_iff results) as Ht.
  unfold generate_all_figures, generate_results_table, load_dvfs_results.
  cbn [and_then].
  destruct (plot_energy_efficiency results) as [fig2|e2] eqn:E2;
    cbn [lift and_then].
  2:{ split; [|right; eauto]. split; [discriminate|].
      intros (H & _). apply H2 in H as (fig & H). discriminate. }
  destruct (plot_ipc_comparison results) as [fig3|e3] eqn:E3;
    cbn [lift and_then].
  2:{ split; [|right; eauto]. split; [discriminate|].
      intros (_ & H & _). apply H3 in H as (fig & H). discriminate. }
  destruct (plot_dvfs_efficiency_curve results) as [fig6|e6] eqn:E6;
    cbn [lift and_then].
  2:{ split; [|right; eauto]. split; [discriminate|].
      intros (_ & _ & H & _). apply H6 in H as (fig & H). discriminate. }
  destruct (table_data results) as [|row rows] eqn:Et; cbn [and_then snd].
  - split; [|right; eauto]. split; [discriminate|].
    intros (_ & _ & _ & H). apply Ht in H. congruence.
  - split; [|left; reflexivity]. split; [|reflexivity]. intros _.
    split; [apply H2; eauto|]. split; [apply H3; eauto|].
    split; [apply H6; eauto|]. apply Ht. discriminate.
Qed.

Lemma generate_state (st st' : RandomState) (res : list Entry) :
  Sample.generate_sample_dvfs_data st = Ok (res, st') ->
  draws st' = draws st /\ pos st' = (pos st + 72)%nat.
Proof.
  intro E. rewrite generate_unfold in E.
  apply outer_hits in E as (new & _ & Hlen & Hd & Hp & _).
  assert (Hl : List.length new = 36%nat) by exact Hlen.
  split; [exact Hd|]. rewrite Hp, Hl. reflexivity.
Qed.

(** What the figures need of the sample data. *)
Lemma sample_facts (st st' : RandomState) (res : list Entry) :
  Sample.generate_sample_dvfs_data st = Ok (res, st') ->
  (exists r, In r res
             /\ voltage r = 6 # 10 /\ frequency r = 50
             /\ workload r = "healthcare_monitor_test"%string)
  /\ (exists r, In r res /\ voltage r = 12 # 10 /\ frequency r = 800)
  /\ Forall (fun r => ~ avg_power (metrics r) == 0) res.
Proof.
  intro H. destruct (generate_det st) as (res0 & st0 & ds & E & D & M).
  rewrite E in H. injection H as -> ->.
  vm_compute in D. injection D as D.
  assert (Hex : forall P : Det.Det -> Prop,
             Exists P ds -> exists r, In r res /\ P (Det.det r)).
  { intros P HP. apply Exists_exists in HP as (d & Hd & HPd).
    rewrite <- M in Hd. apply in_map_iff in Hd as (r & <- & Hr). eauto. }
  split; [|split].
  - apply (Hex (fun d => Det.d_voltage d = 6 # 10 /\ Det.d_frequency d = 50
                         /\ Det.d_workload d
                            = "healthcare_monitor_test"%string)).
    rewrite <- D. apply Exists_cons_hd. repeat split; reflexivity.
  - apply (Hex (fun d => Det.d_voltage d = 12 # 10
                         /\ Det.d_frequency d = 800)).
    rewrite <- D. do 30 apply Exists_cons_tl.
    apply Exists_cons_hd. split; reflexivity.
  - assert (Hd : Forall (fun d => ~ Det.d_avg_power d == 0) ds).
    { rewrite <- D. repeat constructor; discriminate. }
    rewrite <- M in Hd. rewrite Forall_map in Hd. exact Hd.
Qed.

(** X19: without a results file the script runs to the end, whatever the
    state of the random generator: every figure is drawn and the table is
    written.  The sample data are generated twice, once for the figures
    and once more for the table, so that 144 unit variates are read. *)
Theorem generate_all_figures_on_sample (st : RandomState) :
  exists st',
    generate_all_figures None st = Done st'
    /\ draws st' = draws st
    /\ pos st' = (pos st + 144)%nat.
Proof.
  unfold generate_all_figures, generate_results_table, load_dvfs_results.
  destruct (generate_det st) as (res & st1 & ds & E & _ & _).
  rewrite E. cbn [lift and_then].
  destruct (sample_facts st st1 res E)
    as ((r0 & Hr0 & Hv0 & Hf0 & Hw0) & (r1 & Hr1 & Hv1 & Hf1) & Hnz).
  destruct (generate_state _ _ _ E) as [Hd1 Hp1].
  destruct (proj2 (energy_plot_ok_iff res)) as (fig2 & ->).
  { exists r0. split; [assumption|]. rewrite Hw0. discriminate. }
  cbn [lift and_then].
  destruct (proj2 (ipc_plot_ok_iff res)) as (fig3 & ->).
  { exists r1. split; [assumption|].
    unfold at_point. rewrite Hv1, Hf1. reflexivity. }
  cbn [lift and_then].
  destruct (proj2 (efficiency_plot_ok_iff res)) as (fig6 & ->).
  { split; [eauto|]. intros v f r _ Hfind.
    apply find_some in Hfind as [Hr _].
    rewrite Forall_forall in Hnz. auto. }
  cbn [lift and_then].
  destruct (generate_det st1) as (res2 & st2 & ds2 & E2 & _ & _).
  rewrite E2. cbn [lift and_then].
  destruct (sample_facts st1 st2 res2 E2)
    as ((r2 & Hr2 & Hv2 & Hf2 & Hw2) & _ & _).
  destruct (generate_state _ _ _ E2) as [Hd2 Hp2].
  assert (Ht : table_data res2 <> []).
  { apply table_ok_iff.
    exists r2, (6 # 10), 50, "healthcare_monitor_test"%string.
    split; [assumption|]. split; [simpl; auto|]. split; [simpl; auto|].
    apply selected_iff. rewrite Hv2, Hf2, Hw2.
    repeat split; reflexivity. }
  destruct (table_data res2) as [|row rows]; [congruence|].
  cbn [and_then snd]. exists st2. split; [reflexivity|].
  split; [congruence | lia].
Qed.

End FigureFacts.

(** ** The inputs of the power computations *)




(** ** Witnesses of the order independence of Figures 2 and 6 *)

Lemma plot_energy_efficiency_perm_witness :
  outcome_equiv (Analysis.plot_energy_efficiency tied_results)
                (Analysis.plot_energy_efficiency (rev tied_results)).
Proof.
  apply AnalysisFacts.plot_energy_efficiency_perm.
  - apply Permutation_rev.
  - intros v f. unfold Analysis.active_results, Analysis.point_results.
    unfold tied_results. cbn [rev app filter].
    destruct (Analysis.at_point v f
                (entry_with (7 # 10) 100 "healthcare_monitor_test"
                            (5 # 10000) (6 # 10) 30)) eqn:E1,
             (Analysis.at_point v f
                (entry_with (8 # 10) 200 "healthcare_monitor_test"
                            (9 # 10000) (7 # 10) 70)) eqn:E2,
             (Analysis.at_point v f
                (entry_with (6 # 10) 50 "healthcare_monitor_test"
                            (5 # 10000) (4 # 10) 20)) eqn:E3;
      try reflexivity; exfalso;
      unfold Analysis.at_point in *; simpl in *;
      repeat match goal with
             | H : _ && _ = true |- _ => apply andb_true_iff in H as [? ?]
             end;
      repeat match goal with
             | H : Qeq_bool _ _ = true |- _ => apply Qeq_bool_iff in H
             end;
      lra.
Defined.

Lemma plot_dvfs_efficiency_curve_perm_witness :
  outcome_equiv (Analysis.plot_dvfs_efficiency_curve pair_results)
                (Analysis.plot_dvfs_efficiency_curve (rev pair_results)).
Proof.
  apply AnalysisFacts.plot_dvfs_efficiency_curve_perm.
  - apply Permutation_rev.
  - intros v f. unfold pair_results, entry_with, Analysis.baseline,
      Analysis.at_point. simpl.
    destruct (Qeq_bool (7 # 10) v), (Qeq_bool 100 f),
      (Qeq_bool (6 # 10) v), (Qeq_bool 50 f); simpl; lia.
Defined.

(** X23: the table of operating points that Figures 2, 5 and 6 compute
    from the records ([sorted(list(set(...)))]) is strictly increasing in
    tuple order, hence free of duplicates, holds only points of records,
    and holds the point of every record. *)
Theorem points_of_spec (results : list Entry) :
  StronglySorted lex_lt (Analysis.points_of results)
  /\ distinct point_eqb (Analysis.points_of results)
  /\ (forall p, In p (Analysis.points_of results) ->
        exists r, In r results /\ p = (voltage r, frequency r))
  /\ (forall r, In r results ->
        exists p, In p (Analysis.points_of results)
                  /\ point_eq (voltage r, frequency r) p).
Proof.
  pose proof (points_of_strict results) as Hs.
  split; [exact Hs|]. split; [|split].
  - intros i j x y Hi Hj E. apply point_eqb_iff in E.
    destruct (Nat.lt_trichotomy i j) as [Hlt|[Heq|Hgt]]; [|assumption|].
    + exfalso. apply (AnalysisFacts.lex_lt_not_eq x y); [|assumption].
      exact (StronglySorted_nth _ _ Hs i j x y Hlt Hi Hj).
    + exfalso. apply (AnalysisFacts.lex_lt_not_eq y x).
      * exact (StronglySorted_nth _ _ Hs j i y x Hgt Hj Hi).
      * apply point_eq_sym. assumption.
  - apply points_of_In.
  - apply points_of_complete.
Qed.

Lemma points_of_spec_witness :
  exists p,
    In p (Analysis.points_of tied_results)
    /\ point_eq (8 # 10, 200) p.
Proof.
  destruct (points_of_spec tied_results) as (_ & _ & _ & H).
  apply (H (entry_with (8 # 10) 200 "healthcare_monitor_test"
                       (9 # 10000) (7 # 10) 70)).
  simpl. auto.
Defined.

(** * The configuration *)

Module ConfigFacts.
Import Topology Ports.

(** X20: every port binding of [__init__] joins a memory-facing port of
    one object to a CPU-facing port of another; every oriented edge goes
    one level deeper in the hierarchy (L1, L2, bus, memory controller), so
    the wiring has no cycle; and both L1 caches, the L2 cache and the bus
    reach the memory controller. *)
Theorem wiring_is_layered :
  Forall (fun e => exists c d, orient e = Some (c, d) /\ c <> d
                               /\ role_of (fst e) <> role_of (snd e))
         wiring
  /\ List.length edges = List.length wiring
  /\ (forall c d, In (c, d) edges -> (depth c < depth d)%nat)
  /\ (forall c, ~ path c c)
  /\ (forall c, In c [ICache; DCache; L2Cache; MemBus] ->
                reaches c MemCtrl).
Proof.
  split; [apply TopologyFacts.wiring_well_typed|].
  split; [reflexivity|].
  split; [apply TopologyFacts.edge_deepens|].
  split; [apply TopologyFacts.acyclic|].
  intros c Hc. apply TopologyFacts.hierarchy_reaches_mem_ctrl.
  simpl in *. intuition.
Qed.

(** X21: no port exceeds its multiplicity: each port declared with
    [Port()] is bound at most once, and the one port bound twice, the
    CPU side of the L2 cache, is declared with [VectorPort()].  The CPU
    sides of both L1 caches are bound to nothing. *)
Theorem ports_within_multiplicity :
  Forall (fun d => snd d = Single -> (bindings (fst d) <= 1)%nat) declared
  /\ (forall p, In p (map fst declared) -> (2 <= bindings p)%nat ->
        In (p, Vector) declared)
  /\ bindings (mkPort L2Cache "cpu_side") = 2%nat
  /\ bindings (mkPort ICache "cpu_side") = 0%nat
  /\ bindings (mkPort DCache "cpu_side") = 0%nat.
Proof.
  split; [|split; [|split; [|split]]]; try reflexivity.
  - apply Forall_forall. intros d Hd. simpl in Hd.
    repeat (destruct Hd as [<-|Hd];
            [simpl; intro E; try discriminate E; vm_compute; lia|]).
    destruct Hd.
  - intros p Hp. simpl in Hp.
    repeat (destruct Hp as [<-|Hp];
            [vm_compute; intro H; try lia; auto 10|]).
    destruct Hp.
Qed.

(** X22: the DVFS table of the configuration spans the clocks the file
    declares: its first frequency is [min_clock], its last frequency is
    [system_clock], its last voltage is the voltage of the voltage
    domains; and it denotes, point for point, the table that the analysis
    script generates its sample data from. *)
Theorem config_table_consistent :
  exists (t : list point) (lo hi vmax : Q),
    Config.parse_table Config.dvfs_points = Some t
    /\ Config.parse_quantity "MHz" min_clock = Some lo
    /\ Config.parse_quantity "MHz" system_clock = Some hi
    /\ Config.parse_quantity "V" system_voltage = Some vmax
    /\ (forall p, hd_error t = Some p -> snd p == lo)
    /\ (forall p, hd_error (rev t) = Some p -> snd p == hi /\ fst p == vmax)
    /\ Forall (fun p => lo <= snd p /\ snd p <= hi /\ fst p <= vmax) t
    /\ Forall2 point_eq t Sample.dvfs_points.
Proof.
  destruct config_table_matches_sample as (t & Ht & Hm).
  exists t. do 3 eexists. split; [exact Ht|].
  do 3 (split; [vm_compute; reflexivity|]).
  vm_compute in Ht. injection Ht as <-.
  split; [|split; [|split]].
  - intros p Hp. simpl in Hp. injection Hp as <-. reflexivity.
  - intros p Hp. simpl in Hp. injection Hp as <-. split; reflexivity.
  - repeat constructor; simpl; discriminate.
  - exact Hm.
Qed.

End ConfigFacts.
